(** * CareTrekApp: the theme colour resolver [extractColor]

    A shallow embedding of the helper functions [isHex], [isRgb],
    [isColorName] and of the recursive resolver [extractColor] of the
    health-history screen, together with the properties of the resolver.

    JavaScript values are embedded as a tree: primitive leaves, plain
    objects as the list of their own enumerable string-keyed properties in
    enumeration order, arrays as the list of their elements with the list of
    their own enumerable named properties.  Such a tree has finite depth and
    no cycles, no accessors and no proxies.  The resolver is given twice: as
    the function it computes, and with the call stack it needs, on which the
    engine raises [RangeError] when it is exhausted. *)

From Stdlib Require Import Ascii String Decimal DecimalPos DecimalN.
From Stdlib Require Import Bool Arith NArith ZArith Lia List Permutation.
Import ListNotations.

Local Open Scope N_scope.

(** ** Strings *)

(** A JavaScript string is a sequence of UTF-16 code units. *)
Definition jsstring : Type := list N.

(** The code units of an ASCII literal of the source. *)
Definition lit (s : string) : jsstring :=
  List.map N_of_ascii (list_ascii_of_string s).

Fixpoint str_eqb (a b : jsstring) : bool :=
  match a, b with
  | [], [] => true
  | x :: a', y :: b' => (x =? y) && str_eqb a' b'
  | _, _ => false
  end.

(** [WhiteSpace] and [LineTerminator] of ECMAScript: what
    [String.prototype.trim] strips from either end. *)
Definition is_white_space (c : N) : bool :=
  (c =? 0x09) || (c =? 0x0A) || (c =? 0x0B) || (c =? 0x0C) || (c =? 0x0D)
  || (c =? 0x20) || (c =? 0xA0) || (c =? 0x1680)
  || ((0x2000 <=? c) && (c <=? 0x200A))
  || (c =? 0x2028) || (c =? 0x2029) || (c =? 0x202F) || (c =? 0x205F)
  || (c =? 0x3000) || (c =? 0xFEFF).

Fixpoint trimStart (s : jsstring) : jsstring :=
  match s with
  | [] => []
  | c :: s' => if is_white_space c then trimStart s' else s
  end.

Definition trimEnd (s : jsstring) : jsstring := rev (trimStart (rev s)).

Definition trim (s : jsstring) : jsstring := trimEnd (trimStart s).

(** ** The three recognisers *)

Definition is_digit (c : N) : bool := (48 <=? c) && (c <=? 57).
Definition is_upper (c : N) : bool := (65 <=? c) && (c <=? 90).
Definition is_lower (c : N) : bool := (97 <=? c) && (c <=? 122).

(** The class [[A-Fa-f0-9]]. *)
Definition is_hex_digit (c : N) : bool :=
  ((65 <=? c) && (c <=? 70)) || ((97 <=? c) && (c <=? 102)) || is_digit c.

(** The class [[a-zA-Z]]. *)
Definition is_alpha (c : N) : bool := is_lower c || is_upper c.

(** A literal letter of a pattern with the [i] flag: [lower] is its lower-case
    code unit; no code unit outside ASCII folds onto an ASCII letter. *)
Definition ci (lower c : N) : bool := (c =? lower) || (c =? lower - 32).

(** [/^#([A-Fa-f0-9]{3,8})$/.test(s?.trim?.() ?? '')] *)
Definition isHex (s : jsstring) : bool :=
  match trim s with
  | 35 :: ds =>
      (3 <=? length ds)%nat && (length ds <=? 8)%nat && forallb is_hex_digit ds
  | _ => false
  end.

(** [/^rgba?\(/i.test(s?.trim?.() ?? '')] *)
Definition isRgb (s : jsstring) : bool :=
  match trim s with
  | r :: g :: b :: rest =>
      ci 114 r && ci 103 g && ci 98 b &&
      match rest with
      | 40 :: _ => true
      | a :: 40 :: _ => ci 97 a
      | _ => false
      end
  | _ => false
  end.

(** [/^[a-zA-Z]+$/.test(s?.trim?.() ?? '')] *)
Definition isColorName (s : jsstring) : bool :=
  match trim s with
  | [] => false
  | cs => forallb is_alpha cs
  end.

(** ** Numbers *)

(** A Number, as [Number::toString] sees it: NaN, an infinity, a zero, or a
    finite non-zero value [± s × 10^(n-k)] where [k] is the number of decimal
    digits of [s]. *)
Inductive number : Type :=
| NaN
| Infinity (negative : bool)
| Zero (negative : bool)
| Finite (negative : bool) (s : positive) (n : Z).

Fixpoint uint_units (d : Decimal.uint) : jsstring :=
  match d with
  | Nil => []
  | D0 d => 48 :: uint_units d
  | D1 d => 49 :: uint_units d
  | D2 d => 50 :: uint_units d
  | D3 d => 51 :: uint_units d
  | D4 d => 52 :: uint_units d
  | D5 d => 53 :: uint_units d
  | D6 d => 54 :: uint_units d
  | D7 d => 55 :: uint_units d
  | D8 d => 56 :: uint_units d
  | D9 d => 57 :: uint_units d
  end.

(** The decimal digits of a natural number, most significant first. *)
Definition decimal (n : N) : jsstring := uint_units (N.to_uint n).

Definition minus_sign (negative : bool) : jsstring :=
  if negative then [45] else [].

(** [String(value)] on a Number: [Number::toString] with radix 10. *)
Definition String_of_number (x : number) : jsstring :=
  match x with
  | NaN => lit "NaN"
  | Zero _ => lit "0"
  | Infinity negative => minus_sign negative ++ lit "Infinity"
  | Finite negative s n =>
      let ds := decimal (Npos s) in
      let k := Z.of_nat (length ds) in
      minus_sign negative ++
      if ((k <=? n) && (n <=? 21))%Z then
        ds ++ repeat 48 (Z.to_nat (n - k))
      else if ((0 <? n) && (n <=? 21))%Z then
        firstn (Z.to_nat n) ds ++ [46] ++ skipn (Z.to_nat n) ds
      else if ((-6 <? n) && (n <=? 0))%Z then
        [48; 46] ++ repeat 48 (Z.to_nat (- n)) ++ ds
      else
        let e := (n - 1)%Z in
        let exponent :=
          [101] ++ (if (e <? 0)%Z then [45] else [43]) ++ decimal (Z.abs_N e) in
        match ds with
        | [] => []
        | [d] => d :: exponent
        | d :: more => d :: [46] ++ more ++ exponent
        end
  end.

(** ** Values *)

Unset Elimination Schemes.

Inductive value : Type :=
| VNull
| VUndefined
| VBool (b : bool)
| VNumber (x : number)
| VString (s : jsstring)
| VBigInt (z : Z)
| VSymbol
| VFunction
| VObject (props : list (jsstring * value))
| VArray (elems : list value) (props : list (jsstring * value)).

Set Elimination Schemes.

(** What [extractColor] returns: a string, or [null] when the recursive calls
    pass [null as any] for the fallback. *)
Definition result : Type := option jsstring.

(** [if (candidate)]: [null] and the empty string are falsy. *)
Definition truthy (c : result) : bool :=
  match c with
  | Some (_ :: _) => true
  | _ => false
  end.

Definition priorityKeys : list jsstring :=
  [lit "hex"; lit "color"; lit "value"; lit "main"; lit "DEFAULT";
   lit "default"; lit "light"; lit "dark"; lit "primary"].

(** The name of the array index [i]. *)
Definition index_key (i : nat) : jsstring := decimal (N.of_nat i).

Definition index_keys (len : nat) : list jsstring :=
  List.map index_key (seq 0 len).

Section Loops.

(** The recursive call [extractColor(_, null as any)]. *)
Variable recurse : value -> result.

(** [hasOwnProperty.call(value, k)] and then [recurse(value[k])], on the
    properties of a plain object: [None] when [k] is not an own property. *)
Fixpoint own_candidate (k : jsstring) (props : list (jsstring * value))
  : option result :=
  match props with
  | [] => None
  | (k', v) :: props' =>
      if str_eqb k k' then Some (recurse v) else own_candidate k props'
  end.

(** The same on the elements of an array, the element [i] being the own
    property named [index_key i]. *)
Fixpoint elem_candidate (k : jsstring) (i : nat) (elems : list value)
  : option result :=
  match elems with
  | [] => None
  | v :: elems' =>
      if str_eqb k (index_key i) then Some (recurse v)
      else elem_candidate k (S i) elems'
  end.

(** [for (const k of keys) if (hasOwnProperty(k)) { candidate = ...;
    if (candidate) return candidate }]: [Some c] when the loop returns [c],
    [None] when it runs to its end. *)
Fixpoint scan_keys (lookup : jsstring -> option result) (keys : list jsstring)
  : result :=
  match keys with
  | [] => None
  | k :: keys' =>
      match lookup k with
      | Some candidate =>
          if truthy candidate then candidate else scan_keys lookup keys'
      | None => scan_keys lookup keys'
      end
  end.

(** [hasOwnProperty] and [value[k]] on an array: an element, or one of the
    own named properties an array can carry like any object.  ([length] is
    own too, but it is neither enumerable nor a priority key, and no loop asks
    for it.) *)
Definition array_candidate (elems : list value)
           (props : list (jsstring * value)) (k : jsstring) : option result :=
  match elem_candidate k 0 elems with
  | Some c => Some c
  | None => own_candidate k props
  end.

(** [for (const v of value) { candidate = ...; if (candidate) return ... }] *)
Fixpoint scan_elems (elems : list value) : result :=
  match elems with
  | [] => None
  | v :: elems' =>
      if truthy (recurse v) then recurse v else scan_elems elems'
  end.

End Loops.

(** [for (const k in value)] visits the enumerable property names; all the
    properties of the model are own, so the [hasOwnProperty] test inside the
    loop holds for each of them.  On an array it visits the indices in
    ascending order, then the named properties. *)
Definition keys_of (props : list (jsstring * value)) : list jsstring :=
  List.map fst props.

Fixpoint extractColor (value : value) (fallback : result) {struct value}
  : result :=
  match value with
  | VNull | VUndefined => fallback
  | VString str =>
      let s := trim str in
      if isHex s || isRgb s || isColorName s || (0 <? length s)%nat
      then Some s else fallback
  | VNumber x => Some (String_of_number x)
  | VObject props =>
      let recurse v := extractColor v None in
      match scan_keys (fun k => own_candidate recurse k props) priorityKeys with
      | Some c => Some c
      | None =>
          match scan_keys (fun k => own_candidate recurse k props)
                  (keys_of props) with
          | Some c => Some c
          | None => fallback
          end
      end
  | VArray elems props =>
      let recurse v := extractColor v None in
      match scan_keys (array_candidate recurse elems props) priorityKeys with
      | Some c => Some c
      | None =>
          match scan_keys (array_candidate recurse elems props)
                  (index_keys (length elems) ++ keys_of props) with
          | Some c => Some c
          | None =>
              match scan_elems recurse elems with
              | Some c => Some c
              | None => fallback
              end
          end
      end
  | VBool _ | VBigInt _ | VSymbol | VFunction => fallback
  end.

(** The two key loops of the object branch, named. *)
Definition priority_pass (props : list (jsstring * value)) : result :=
  scan_keys (fun k => own_candidate (fun v => extractColor v None) k props)
    priorityKeys.

Definition for_in_pass (props : list (jsstring * value)) : result :=
  scan_keys (fun k => own_candidate (fun v => extractColor v None) k props)
    (keys_of props).

(** The loop over the named properties of an array, after its elements. *)
Definition named_pass (elems : list value) (props : list (jsstring * value))
  : result :=
  scan_keys (array_candidate (fun v => extractColor v None) elems props)
    (keys_of props).

(** [value[k]] behind [hasOwnProperty]: the value of the own property [k]. *)
Fixpoint own_value (k : jsstring) (props : list (jsstring * value))
  : option value :=
  match props with
  | [] => None
  | (k', v) :: props' => if str_eqb k k' then Some v else own_value k props'
  end.

(** What the body of the priority loop computes for the key [k]: the
    candidate, [None] also when [k] is not an own property. *)
Definition key_candidate (props : list (jsstring * value)) (k : jsstring)
  : result :=
  match own_value k props with
  | Some v => extractColor v None
  | None => None
  end.

(** A value on which the recursive call comes back with nothing usable. *)
Definition resolves_to_nothing (v : value) : bool :=
  negb (truthy (extractColor v None)).

(** The literals a value holds: its string leaves, trimmed, and its number
    leaves, printed. *)
Fixpoint literals (v : value) : list jsstring :=
  match v with
  | VString s => [trim s]
  | VNumber x => [String_of_number x]
  | VObject props => flat_map (fun p => literals (snd p)) props
  | VArray elems props =>
      flat_map literals elems ++ flat_map (fun p => literals (snd p)) props
  | _ => []
  end.

(** White space at either end of a string. *)
Definition leading_ws (s : jsstring) : bool :=
  match s with
  | c :: _ => is_white_space c
  | [] => false
  end.

Definition trailing_ws (s : jsstring) : bool := leading_ws (rev s).

(** The first truthy result of a list of results, as [scan_elems] finds it. *)
Fixpoint first_truthy (rs : list result) : result :=
  match rs with
  | [] => None
  | r :: rs' => if truthy r then r else first_truthy rs'
  end.

(** The priority keys whose candidate is usable, in priority order. *)
Definition usable_priority_keys (props : list (jsstring * value))
  : list jsstring :=
  filter (fun k => truthy (key_candidate props k)) priorityKeys.

(** ** Sample theme values *)

(** [{ primary: { DEFAULT: "#112233" } }] *)
Definition nested_primary_props : list (jsstring * value) :=
  [(lit "primary", VObject [(lit "DEFAULT", VString (lit "#112233"))])].

Definition nested_primary : value := VObject nested_primary_props.

(** [{ hex: "#000", color: "#fff" }] *)
Definition hex_and_color_props : list (jsstring * value) :=
  [(lit "hex", VString (lit "#000")); (lit "color", VString (lit "#fff"))].

(** [{ hex: null, color: "  ", main: "#fff" }] *)
Definition empty_then_main_props : list (jsstring * value) :=
  [(lit "hex", VNull); (lit "color", VString (lit "  "));
   (lit "main", VString (lit "#fff"))].

(** [["#abc", "#def"]] *)
Definition abc_def : value :=
  VArray [VString (lit "#abc"); VString (lit "#def")] [].

(** The default of the [fallback] parameter. *)
Definition default_fallback : jsstring := lit "#000000".

(** ** Shapes of strings and values *)

(** A string made of white space only. *)
Definition blank (s : jsstring) : bool := forallb is_white_space s.

Fixpoint distinct (keys : list jsstring) : bool :=
  match keys with
  | [] => true
  | k :: keys' => negb (existsb (str_eqb k) keys') && distinct keys'
  end.

(** An object has each property name once, at every depth, and so has an
    array, none of its named properties being called like an index. *)
Fixpoint unique_keys (v : value) : bool :=
  match v with
  | VObject props =>
      distinct (keys_of props) && forallb (fun p => unique_keys (snd p)) props
  | VArray elems props =>
      distinct (index_keys (length elems) ++ keys_of props)
      && forallb unique_keys elems
      && forallb (fun p => unique_keys (snd p)) props
  | _ => true
  end.

(** ** The theme handling of the health-history screen *)

(** [ToBoolean], as [!!(...)] applies it. *)
Definition ToBoolean (v : value) : bool :=
  match v with
  | VNull | VUndefined => false
  | VBool b => b
  | VNumber NaN | VNumber (Zero _) => false
  | VNumber _ => true
  | VString [] => false
  | VString (_ :: _) => true
  | VBigInt z => negb (z =? 0)%Z
  | VSymbol | VFunction | VObject _ | VArray _ _ => true
  end.

Fixpoint elem_value (k : jsstring) (i : nat) (elems : list value)
  : option value :=
  match elems with
  | [] => None
  | v :: elems' =>
      if str_eqb k (index_key i) then Some v else elem_value k (S i) elems'
  end.

(** [value.k], for a name [k] other than [length] that no built-in prototype
    defines (the screen reads [isDark], [colors], [theme] and the six palette
    names): [None] stands for the TypeError on [null] and [undefined]; a
    property that is not there reads as [undefined]. *)
Definition member (v : value) (k : jsstring) : option value :=
  match v with
  | VNull | VUndefined => None
  | VObject props =>
      Some (match own_value k props with Some x => x | None => VUndefined end)
  | VArray elems props =>
      Some (match elem_value k 0 elems with
            | Some x => x
            | None =>
                match own_value k props with Some x => x | None => VUndefined end
            end)
  | _ => Some VUndefined
  end.

(** [value?.k] *)
Definition optional_member (v : value) (k : jsstring) : value :=
  match member v k with
  | Some x => x
  | None => VUndefined
  end.

Definition nullish (v : value) : bool :=
  match v with
  | VNull | VUndefined => true
  | _ => false
  end.

(** [a ?? b] *)
Definition coalesce (a b : value) : value := if nullish a then b else a.

(** [const isDark = !!(themeHook?.isDark)] *)
Definition isDark (themeHook : value) : bool :=
  ToBoolean (optional_member themeHook (lit "isDark")).

(** [const colorsObj = themeHook?.colors ?? themeHook?.theme ?? themeHook ?? {}] *)
Definition colorsObj (themeHook : value) : value :=
  coalesce (optional_member themeHook (lit "colors"))
    (coalesce (optional_member themeHook (lit "theme"))
       (coalesce themeHook (VObject []))).

(** The six colours the screen computes from its theme. *)
Record screen_colors : Type := {
  bgColor : result;
  textColor : result;
  cardColor : result;
  borderColor : result;
  primaryColor : result;
  tertiaryText : result
}.

(** The second argument of the six calls: [isDark ? dark : light]. *)
Definition default_colors (dark : bool) : screen_colors :=
  {| bgColor := Some (lit (if dark then "#0f172a" else "#ffffff"));
     textColor := Some (lit (if dark then "#E2E8F0" else "#1A202C"));
     cardColor := Some (lit (if dark then "#111827" else "#F8FAFC"));
     borderColor := Some (lit (if dark then "#1F2937" else "rgba(0,0,0,0.08)"));
     primaryColor := Some (lit (if dark then "#4FD1C5" else "#2C7A7B"));
     tertiaryText := Some (lit (if dark then "#9CA3AF" else "#6B7280")) |}.

Definition palette_names : list jsstring :=
  [lit "background"; lit "text"; lit "card"; lit "border"; lit "primary";
   lit "textTertiary"].

Definition and_then {A B : Type} (x : option A) (f : A -> option B)
  : option B :=
  match x with
  | Some a => f a
  | None => None
  end.

(** The colour computation at the top of [HealthHistoryScreen], on what
    [useTheme()] returned; [None] when a property read throws. *)
Definition theme_colors (themeHook : value) : option screen_colors :=
  let dark := isDark themeHook in
  let obj := colorsObj themeHook in
  let d := default_colors dark in
  and_then (member obj (lit "background")) (fun background =>
  and_then (member obj (lit "text")) (fun text =>
  and_then (member obj (lit "card")) (fun card =>
  and_then (member obj (lit "border")) (fun border =>
  and_then (member obj (lit "primary")) (fun primary =>
  and_then (member obj (lit "textTertiary")) (fun textTertiary =>
  Some {| bgColor := extractColor background (bgColor d);
          textColor := extractColor text (textColor d);
          cardColor := extractColor card (cardColor d);
          borderColor := extractColor border (borderColor d);
          primaryColor := extractColor primary (primaryColor d);
          tertiaryText := extractColor textTertiary (tertiaryText d) |})))))).

(** A colour a style can take as it is: a string, not empty, without white
    space at its ends. *)
Definition usable (c : result) : bool :=
  match c with
  | Some (u :: s) => negb (leading_ws (u :: s)) && negb (trailing_ws (u :: s))
  | _ => false
  end.

Definition all_usable (p : screen_colors) : bool :=
  usable (bgColor p) && usable (textColor p) && usable (cardColor p)
  && usable (borderColor p) && usable (primaryColor p)
  && usable (tertiaryText p).

(** ** Icons and severity colours *)

Definition getRecordIcon (type : jsstring) : jsstring :=
  if str_eqb type (lit "appointment") then lit "event"
  else if str_eqb type (lit "medication") then lit "medication"
  else if str_eqb type (lit "symptom") then lit "warning"
  else lit "info".

(** [severity] is [None] for [undefined]; [dark] is the [isDark] of the
    enclosing component. *)
Definition getSeverityColor (dark : bool) (severity : option jsstring)
  : jsstring :=
  let default := lit (if dark then "#A0AEC0" else "#4A5568") in
  match severity with
  | Some s =>
      if str_eqb s (lit "high") then lit "#E53E3E"
      else if str_eqb s (lit "medium") then lit "#D69E2E"
      else if str_eqb s (lit "low") then lit "#38A169"
      else default
  | None => default
  end.

(** The alpha suffixes the badges append to a severity colour. *)
Definition alpha_suffixes : list jsstring := [lit "33"; lit "1A"; lit "4D"].

(** ** The resolver on a bounded call stack *)

Inductive exception : Type :=
| RangeError
| TypeError.

(** What a call comes to: a value, or an exception nobody catches. *)
Inductive outcome (A : Type) : Type :=
| Returned (a : A)
| Thrown (e : exception).

Arguments Returned {A} a.
Arguments Thrown {A} e.

(** The key loops when the recursive call can throw: the exception leaves the
    loop and the function. *)
Fixpoint scan_keys_within (lookup : jsstring -> option (outcome result))
         (keys : list jsstring) : outcome result :=
  match keys with
  | [] => Returned None
  | k :: keys' =>
      match lookup k with
      | Some (Returned candidate) =>
          if truthy candidate then Returned candidate
          else scan_keys_within lookup keys'
      | Some (Thrown e) => Thrown e
      | None => scan_keys_within lookup keys'
      end
  end.

Fixpoint scan_elems_within (recurse : value -> outcome result)
         (elems : list value) : outcome result :=
  match elems with
  | [] => Returned None
  | v :: elems' =>
      match recurse v with
      | Returned candidate =>
          if truthy candidate then Returned candidate
          else scan_elems_within recurse elems'
      | Thrown e => Thrown e
      end
  end.

(** [extractColor] with room for [budget] nested activations of itself on the
    call stack: the engine raises [RangeError] on the call that does not fit,
    and the function has no [try]. *)
Fixpoint extractColor_within (budget : nat) (value : value) (fallback : result)
         {struct budget} : outcome result :=
  match budget with
  | O => Thrown RangeError
  | S budget' =>
      match value with
      | VNull | VUndefined => Returned fallback
      | VString str =>
          let s := trim str in
          if isHex s || isRgb s || isColorName s || (0 <? length s)%nat
          then Returned (Some s) else Returned fallback
      | VNumber x => Returned (Some (String_of_number x))
      | VObject props =>
          let recurse v := extractColor_within budget' v None in
          let lookup k := option_map recurse (own_value k props) in
          match scan_keys_within lookup priorityKeys with
          | Thrown e => Thrown e
          | Returned (Some c) => Returned (Some c)
          | Returned None =>
              match scan_keys_within lookup (keys_of props) with
              | Thrown e => Thrown e
              | Returned (Some c) => Returned (Some c)
              | Returned None => Returned fallback
              end
          end
      | VArray elems props =>
          let recurse v := extractColor_within budget' v None in
          let lookup k :=
            match elem_value k 0 elems with
            | Some v => Some (recurse v)
            | None => option_map recurse (own_value k props)
            end in
          match scan_keys_within lookup priorityKeys with
          | Thrown e => Thrown e
          | Returned (Some c) => Returned (Some c)
          | Returned None =>
              match scan_keys_within lookup
                      (index_keys (length elems) ++ keys_of props) with
              | Thrown e => Thrown e
              | Returned (Some c) => Returned (Some c)
              | Returned None =>
                  match scan_elems_within recurse elems with
                  | Thrown e => Thrown e
                  | Returned (Some c) => Returned (Some c)
                  | Returned None => Returned fallback
                  end
              end
          end
      | VBool _ | VBigInt _ | VSymbol | VFunction => Returned fallback
      end
  end.

(** The nested activations a value can ask for: the length of its longest
    path, a leaf taking one call. *)
Fixpoint call_depth (v : value) : nat :=
  match v with
  | VObject props => S (list_max (map (fun p => call_depth (snd p)) props))
  | VArray elems props =>
      S (Nat.max (list_max (map call_depth elems))
           (list_max (map (fun p => call_depth (snd p)) props)))
  | _ => 1
  end.

(** A colour string under [n] one-element arrays. *)
Fixpoint nested (n : nat) : value :=
  match n with
  | O => VString (lit "#fff")
  | S n' => VArray [nested n'] []
  end.

Definition and_then_within {A B : Type} (x : outcome A) (f : A -> outcome B)
  : outcome B :=
  match x with
  | Returned a => f a
  | Thrown e => Thrown e
  end.

(** [value.k] with its TypeError. *)
Definition member_within (v : value) (k : jsstring) : outcome value :=
  match member v k with
  | Some x => Returned x
  | None => Thrown TypeError
  end.

(** The colour computation of the screen, statement after statement, each
    call of the resolver with room for [budget] nested activations. *)
Definition theme_colors_within (budget : nat) (themeHook : value)
  : outcome screen_colors :=
  let dark := isDark themeHook in
  let obj := colorsObj themeHook in
  let d := default_colors dark in
  and_then_within (member_within obj (lit "background")) (fun background =>
  and_then_within (extractColor_within budget background (bgColor d)) (fun bg =>
  and_then_within (member_within obj (lit "text")) (fun text =>
  and_then_within (extractColor_within budget text (textColor d)) (fun tx =>
  and_then_within (member_within obj (lit "card")) (fun card =>
  and_then_within (extractColor_within budget card (cardColor d)) (fun cd =>
  and_then_within (member_within obj (lit "border")) (fun border =>
  and_then_within (extractColor_within budget border (borderColor d)) (fun bd =>
  and_then_within (member_within obj (lit "primary")) (fun primary =>
  and_then_within (extractColor_within budget primary (primaryColor d)) (fun pr =>
  and_then_within (member_within obj (lit "textTertiary")) (fun textTertiary =>
  and_then_within (extractColor_within budget textTertiary (tertiaryText d))
    (fun tt =>
  Returned {| bgColor := bg; textColor := tx; cardColor := cd;
              borderColor := bd; primaryColor := pr;
              tertiaryText := tt |})))))))))))).

(** ** Values with and without something to find *)

Definition is_empty (s : jsstring) : bool :=
  match s with
  | [] => true
  | _ :: _ => false
  end.

(** A value that holds nothing usable: no number and no string that is not
    blank, at any depth.  [null], [undefined], a boolean, a blank string and
    an empty object are of this kind. *)
Definition barren (v : value) : bool := forallb is_empty (literals v).

(** A value that holds something usable, each property name once. *)
Definition fruitful (v : value) : bool := unique_keys v && negb (barren v).

(** The priority keys present with a fruitful value, in priority order. *)
Definition fruitful_priority_keys (props : list (jsstring * value))
  : list jsstring :=
  filter (fun k => match own_value k props with
                   | Some v => fruitful v
                   | None => false
                   end) priorityKeys.

(** [Object.assign(["#abc", "#def"], { hex: "#f00" })] *)
Definition abc_def_with_hex : value :=
  VArray [VString (lit "#abc"); VString (lit "#def")]
    [(lit "hex", VString (lit "#f00"))].

(** ** The state of the health-history screen *)

(** A [Date] is its time value in milliseconds; only valid dates occur. *)
Record HealthRecord : Type := {
  id : jsstring;
  date : Z;
  title : jsstring;
  description : jsstring;
  type : jsstring;
  severity : option jsstring;
  doctor : option jsstring;
  location : option jsstring;
  notes : option jsstring
}.

Record HealthData : Type := {
  records : list HealthRecord;
  lastUpdated : Z
}.

(** The six [useState] cells of the component. *)
Record screen : Type := {
  healthData : HealthData;
  isLoading : bool;
  refreshing : bool;
  error : option jsstring;
  selectedRecord : option HealthRecord;
  showRecordModal : bool
}.

(** The initial values of the cells, the component mounting at [now]. *)
Definition initial (now : Z) : screen :=
  {| healthData := {| records := []; lastUpdated := now |};
     isLoading := true;
     refreshing := false;
     error := None;
     selectedRecord := None;
     showRecordModal := false |}.

(** One call of a state setter; [setHealthData] takes the updater form, a
    plain value being the constant updater. *)
Inductive setter : Type :=
| setHealthData (update : HealthData -> HealthData)
| setIsLoading (b : bool)
| setRefreshing (b : bool)
| setError (e : option jsstring)
| setSelectedRecord (r : option HealthRecord)
| setShowRecordModal (b : bool).

Definition set (u : setter) (s : screen) : screen :=
  match u with
  | setHealthData update =>
      {| healthData := update (healthData s); isLoading := isLoading s;
         refreshing := refreshing s; error := error s;
         selectedRecord := selectedRecord s;
         showRecordModal := showRecordModal s |}
  | setIsLoading b =>
      {| healthData := healthData s; isLoading := b;
         refreshing := refreshing s; error := error s;
         selectedRecord := selectedRecord s;
         showRecordModal := showRecordModal s |}
  | setRefreshing b =>
      {| healthData := healthData s; isLoading := isLoading s;
         refreshing := b; error := error s;
         selectedRecord := selectedRecord s;
         showRecordModal := showRecordModal s |}
  | setError e =>
      {| healthData := healthData s; isLoading := isLoading s;
         refreshing := refreshing s; error := e;
         selectedRecord := selectedRecord s;
         showRecordModal := showRecordModal s |}
  | setSelectedRecord r =>
      {| healthData := healthData s; isLoading := isLoading s;
         refreshing := refreshing s; error := error s;
         selectedRecord := r;
         showRecordModal := showRecordModal s |}
  | setShowRecordModal b =>
      {| healthData := healthData s; isLoading := isLoading s;
         refreshing := refreshing s; error := error s;
         selectedRecord := selectedRecord s;
         showRecordModal := b |}
  end.

(** The setter calls of a handler, applied one after the other. *)
Definition run (calls : list setter) (s : screen) : screen :=
  fold_left (fun s' u => set u s') calls s.

Section Sort.

Context {A : Type}.

(** The comparator: negative or zero when the first argument may stay before
    the second. *)
Variable compare : A -> A -> Z.

Fixpoint insert_sorted (x : A) (l : list A) : list A :=
  match l with
  | [] => [x]
  | y :: l' =>
      if (compare x y <=? 0)%Z then x :: l else y :: insert_sorted x l'
  end.

(** [Array.prototype.sort(compare)] with a consistent comparator: the stable
    sort, an element staying before the later ones it compares equal to. *)
Fixpoint sort (l : list A) : list A :=
  match l with
  | [] => []
  | x :: l' => insert_sorted x (sort l')
  end.

End Sort.

(** [(a, b) => b.date.getTime() - a.date.getTime()] *)
Definition by_date (a b : HealthRecord) : Z := (date b - date a)%Z.

(** [loadHealthRecords] up to its [await]. *)
Definition loadHealthRecords_begin : list setter := [setError None].

(** [loadHealthRecords] after the [await] when nothing throws, then its
    [finally]; [fetched] is the record list and [now] the clock. *)
Definition loadHealthRecords_resolve (fetched : list HealthRecord) (now : Z)
  : list setter :=
  [setHealthData
     (fun _ => {| records := sort by_date fetched; lastUpdated := now |});
   setError None; setIsLoading false; setRefreshing false].

Definition failure_message : jsstring :=
  lit "Failed to load health records. Please try again.".

(** [a || b] on strings. *)
Definition or_else (a b : jsstring) : jsstring :=
  match a with
  | [] => b
  | _ :: _ => a
  end.

(** The [catch] of [loadHealthRecords], then its [finally]; [translated] is
    what [t(...)] returned. *)
Definition loadHealthRecords_reject (translated : jsstring) : list setter :=
  [setError (Some (or_else translated failure_message));
   setIsLoading false; setRefreshing false].

Definition onRefresh : list setter :=
  setRefreshing true :: loadHealthRecords_begin.

Definition handleRecordPress (record : HealthRecord) : list setter :=
  [setSelectedRecord (Some record); setShowRecordModal true].

Definition closeRecordModal : list setter :=
  [setShowRecordModal false; setSelectedRecord None].

(** [String(n)] on an integer below [10^21] in size, as every time value
    is. *)
Definition String_of_integer (z : Z) : jsstring :=
  minus_sign (z <? 0)%Z ++ decimal (Z.abs_N z).

(** The record the form of [showAddRecordForm] makes up; [id_ms] and
    [date_ms] are the clock at [Date.now()] and at [new Date()]. *)
Definition newRecord (type : jsstring) (id_ms date_ms : Z) : HealthRecord :=
  {| id := String_of_integer id_ms;
     date := date_ms;
     title := lit "New " ++ type;
     description := lit "Details about the " ++ type;
     type := type;
     severity := Some (lit "medium");
     doctor := None;
     location := None;
     notes := None |}.

(** The [OK] button of [showAddRecordForm]. *)
Definition addRecord (type : jsstring) (id_ms date_ms updated_ms : Z)
  : list setter :=
  [setHealthData
     (fun prev => {| records := newRecord type id_ms date_ms :: records prev;
                     lastUpdated := updated_ms |})].

(** What can happen to the screen. *)
Inductive event : Type :=
| LoadBegan
| LoadResolved (fetched : list HealthRecord) (now : Z)
| LoadRejected (translated : jsstring)
| Refreshed
| RecordPressed (record : HealthRecord)
| ModalClosed
| RecordAdded (type : jsstring) (id_ms date_ms updated_ms : Z).

Definition script (ev : event) : list setter :=
  match ev with
  | LoadBegan => loadHealthRecords_begin
  | LoadResolved fetched now => loadHealthRecords_resolve fetched now
  | LoadRejected translated => loadHealthRecords_reject translated
  | Refreshed => onRefresh
  | RecordPressed record => handleRecordPress record
  | ModalClosed => closeRecordModal
  | RecordAdded type id_ms date_ms updated_ms =>
      addRecord type id_ms date_ms updated_ms
  end.

(** The cells after the first [n] setter calls of a sequence of events: every
    state a render can see, whether the calls of a handler are batched or
    not. *)
Definition seen (s0 : screen) (events : list event) (n : nat) : screen :=
  run (firstn n (flat_map script events)) s0.

(** What the component returns. *)
Inductive view : Type :=
| LoadingView
| ErrorView (message : jsstring)
| ListView (data : list HealthRecord) (modal : bool).

(** The [visible] prop of the record modal. *)
Definition modal_visible (s : screen) : bool :=
  showRecordModal s
  && match selectedRecord s with Some _ => true | None => false end.

Definition render (s : screen) : view :=
  if isLoading s && negb (refreshing s) then LoadingView
  else match error s with
       | Some (c :: message) => ErrorView (c :: message)
       | _ => ListView (records (healthData s)) (modal_visible s)
       end.

Definition load_completed (ev : event) : bool :=
  match ev with
  | LoadResolved _ _ | LoadRejected _ => true
  | _ => false
  end.

(** The list shows the newest record first. *)
Fixpoint newest_first (l : list HealthRecord) : bool :=
  match l with
  | [] => true
  | a :: l' =>
      match l' with
      | [] => true
      | b :: _ => (date b <=? date a)%Z && newest_first l'
      end
  end.

(** A record is added with a date no earlier than those already listed. *)
Definition timely (ev : event) (s : screen) : Prop :=
  match ev with
  | RecordAdded _ _ date_ms _ =>
      forall r, In r (records (healthData s)) -> (date r <= date_ms)%Z
  | _ => True
  end.

(** ** Induction on values *)

Section ValueInd.

Variable P : value -> Prop.
Hypothesis HNull : P VNull.
Hypothesis HUndefined : P VUndefined.
Hypothesis HBool : forall b, P (VBool b).
Hypothesis HNumber : forall x, P (VNumber x).
Hypothesis HString : forall s, P (VString s).
Hypothesis HBigInt : forall z, P (VBigInt z).
Hypothesis HSymbol : P VSymbol.
Hypothesis HFunction : P VFunction.
Hypothesis HObject :
  forall props, Forall (fun p => P (snd p)) props -> P (VObject props).
Hypothesis HArray :
  forall elems props,
    Forall P elems -> Forall (fun p => P (snd p)) props ->
    P (VArray elems props).

Fixpoint value_ind (v : value) : P v :=
  match v with
  | VNull => HNull
  | VUndefined => HUndefined
  | VBool b => HBool b
  | VNumber x => HNumber x
  | VString s => HString s
  | VBigInt z => HBigInt z
  | VSymbol => HSymbol
  | VFunction => HFunction
  | VObject props =>
      HObject props
        ((fix props_ind (l : list (jsstring * value))
            : Forall (fun p => P (snd p)) l :=
            match l with
            | [] => Forall_nil _
            | p :: l' => Forall_cons p (value_ind (snd p)) (props_ind l')
            end) props)
  | VArray elems props =>
      HArray elems props
        ((fix elems_ind (l : list value) : Forall P l :=
            match l with
            | [] => Forall_nil _
            | v' :: l' => Forall_cons v' (value_ind v') (elems_ind l')
            end) elems)
        ((fix props_ind (l : list (jsstring * value))
            : Forall (fun p => P (snd p)) l :=
            match l with
            | [] => Forall_nil _
            | p :: l' => Forall_cons p (value_ind (snd p)) (props_ind l')
            end) props)
  end.

End ValueInd.

(** ** Strings: equality and trimming *)

Lemma str_eqb_eq (a b : jsstring) : str_eqb a b = true <-> a = b.
Proof.
  revert b; induction a as [|x a IH]; intros [|y b]; simpl;
    try (split; [discriminate | discriminate]); try tauto.
  rewrite andb_true_iff, N.eqb_eq, IH.
  split; [intros [-> ->]; reflexivity | intros [= -> ->]; auto].
Qed.

Lemma str_eqb_refl (a : jsstring) : str_eqb a a = true.
Proof. apply str_eqb_eq; reflexivity. Qed.

Lemma trimStart_leading (s : jsstring) : leading_ws (trimStart s) = false.
Proof.
  induction s as [|c s IH]; simpl; [reflexivity|].
  destruct (is_white_space c) eqn:E; [exact IH | simpl; exact E].
Qed.

Lemma trimStart_fixed (s : jsstring) : leading_ws s = false -> trimStart s = s.
Proof. destruct s as [|c s]; simpl; [reflexivity | intros ->; reflexivity]. Qed.

Lemma trimStart_snoc (s : jsstring) (c : N) :
  is_white_space c = false -> trimStart (s ++ [c]) = trimStart s ++ [c].
Proof.
  intros Hc; induction s as [|d s IH]; simpl.
  - rewrite Hc; reflexivity.
  - destruct (is_white_space d); [exact IH | reflexivity].
Qed.

Lemma trimEnd_cons (c : N) (s : jsstring) :
  is_white_space c = false -> trimEnd (c :: s) = c :: trimEnd s.
Proof.
  intros Hc; unfold trimEnd; simpl.
  rewrite trimStart_snoc by exact Hc.
  rewrite rev_app_distr; reflexivity.
Qed.

Lemma trimEnd_leading (s : jsstring) :
  leading_ws s = false -> leading_ws (trimEnd s) = false.
Proof.
  destruct s as [|c s]; simpl; [reflexivity|].
  intros Hc; rewrite trimEnd_cons by exact Hc; exact Hc.
Qed.

Lemma trim_leading (s : jsstring) : leading_ws (trim s) = false.
Proof. apply trimEnd_leading, trimStart_leading. Qed.

Lemma trim_trailing (s : jsstring) : trailing_ws (trim s) = false.
Proof.
  unfold trailing_ws, trim, trimEnd; rewrite rev_involutive.
  apply trimStart_leading.
Qed.

Lemma trim_fixed (s : jsstring) :
  leading_ws s = false -> trailing_ws s = false -> trim s = s.
Proof.
  intros Hl Ht; unfold trim, trimEnd.
  rewrite (trimStart_fixed s Hl), (trimStart_fixed (rev s) Ht).
  apply rev_involutive.
Qed.

Lemma trim_idempotent (s : jsstring) : trim (trim s) = trim s.
Proof. apply trim_fixed; [apply trim_leading | apply trim_trailing]. Qed.

(** ** The string branch *)

(** Each recogniser accepts only a non-empty trimmed string, so the test of
    the string branch comes down to its last disjunct. *)
Lemma string_test (str : jsstring) :
  let s := trim str in
  isHex s || isRgb s || isColorName s || (0 <? length s)%nat
  = (0 <? length s)%nat.
Proof.
  simpl. unfold isHex, isRgb, isColorName.
  rewrite trim_idempotent.
  destruct (trim str) as [|c s]; simpl; [reflexivity|].
  apply orb_true_r.
Qed.

Lemma extractColor_string (str : jsstring) (fallback : result) :
  extractColor (VString str) fallback
  = match trim str with
    | [] => fallback
    | _ :: _ => Some (trim str)
    end.
Proof.
  simpl. rewrite (string_test str).
  destruct (trim str); reflexivity.
Qed.

(** ** Printing numbers *)

Definition graphic (c : N) : Prop := is_white_space c = false.

Lemma digit_graphic (c : N) : is_digit c = true -> graphic c.
Proof.
  unfold is_digit, graphic, is_white_space; intros H.
  apply andb_true_iff in H; destruct H as [H1 H2].
  apply N.leb_le in H1; apply N.leb_le in H2.
  repeat rewrite orb_false_iff; repeat split;
    try (apply N.eqb_neq; lia).
  apply andb_false_iff; left; apply N.leb_gt; lia.
Qed.

Lemma uint_units_digits (d : Decimal.uint) :
  forallb is_digit (uint_units d) = true.
Proof. induction d; simpl; auto. Qed.

Lemma uint_units_inj (d d' : Decimal.uint) :
  uint_units d = uint_units d' -> d = d'.
Proof.
  revert d'; induction d; intros d'; destruct d'; simpl;
    try discriminate; try reflexivity;
    intros H; injection H as H; f_equal; auto.
Qed.

Lemma decimal_digits (n : N) : forallb is_digit (decimal n) = true.
Proof. apply uint_units_digits. Qed.

Lemma decimal_graphic (n : N) : Forall graphic (decimal n).
Proof.
  apply Forall_forall; intros c Hc.
  apply digit_graphic.
  pose proof (decimal_digits n) as H.
  rewrite forallb_forall in H; auto.
Qed.

Lemma decimal_inj (n m : N) : decimal n = decimal m -> n = m.
Proof.
  intros H; apply uint_units_inj in H.
  now apply DecimalN.Unsigned.to_uint_inj.
Qed.

Lemma decimal_pos_nonempty (p : positive) : decimal (Npos p) <> [].
Proof.
  unfold decimal; simpl; intros H.
  apply (DecimalPos.Unsigned.to_uint_nonnil p).
  destruct (Pos.to_uint p); simpl in H; try discriminate; reflexivity.
Qed.

Lemma index_key_inj (i j : nat) : index_key i = index_key j -> i = j.
Proof. intros H; apply decimal_inj in H; now apply Nat2N.inj. Qed.

Lemma Forall_graphic_lit (s : string) :
  forallb (fun c => negb (is_white_space c)) (lit s) = true ->
  Forall graphic (lit s).
Proof.
  intros H; apply Forall_forall; intros c Hc.
  rewrite forallb_forall in H; specialize (H c Hc).
  unfold graphic; now destruct (is_white_space c).
Qed.

Lemma minus_sign_graphic (b : bool) : Forall graphic (minus_sign b).
Proof. destruct b; simpl; repeat constructor. Qed.

Lemma repeat_zero_graphic (n : nat) : Forall graphic (repeat 48 n).
Proof. induction n; simpl; constructor; [reflexivity | assumption]. Qed.

Lemma graphic_split (n : nat) (s : jsstring) :
  Forall graphic s -> Forall graphic (firstn n s) /\ Forall graphic (skipn n s).
Proof. intros H; apply Forall_app; now rewrite firstn_skipn. Qed.

Lemma String_of_number_graphic (x : number) : Forall graphic (String_of_number x).
Proof.
  destruct x as [|b|b|b s n]; simpl.
  - now apply (Forall_graphic_lit "NaN").
  - apply Forall_app; split;
      [apply minus_sign_graphic | now apply (Forall_graphic_lit "Infinity")].
  - now apply (Forall_graphic_lit "0").
  - pose proof (decimal_graphic (Npos s)) as Hds.
    apply Forall_app; split; [apply minus_sign_graphic|].
    repeat match goal with |- context [if ?c then _ else _] => destruct c end.
    + apply Forall_app; split; [exact Hds | apply repeat_zero_graphic].
    + destruct (graphic_split (Z.to_nat n) _ Hds) as [Hf Hs].
      apply Forall_app; split; [exact Hf|].
      constructor; [reflexivity | exact Hs].
    + repeat (constructor; [reflexivity|]).
      apply Forall_app; split; [apply repeat_zero_graphic | exact Hds].
    + destruct (decimal (N.pos s)) as [|d [|d' more]]; [constructor | |];
        inversion Hds; subst; constructor; auto;
        repeat (constructor; [reflexivity|]); try apply decimal_graphic.
      apply Forall_app; split; [assumption|].
      repeat (constructor; [reflexivity|]); apply decimal_graphic.
    + destruct (decimal (N.pos s)) as [|d [|d' more]]; [constructor | |];
        inversion Hds; subst; constructor; auto;
        repeat (constructor; [reflexivity|]); try apply decimal_graphic.
      apply Forall_app; split; [assumption|].
      repeat (constructor; [reflexivity|]); apply decimal_graphic.
Qed.

Lemma String_of_number_nonempty (x : number) : String_of_number x <> [].
Proof.
  destruct x as [|b|b|b s n]; simpl; try discriminate.
  - destruct b; discriminate.
  - pose proof (decimal_pos_nonempty s) as Hds.
    intros H; apply app_eq_nil in H; destruct H as [_ H]; revert H.
    repeat match goal with |- context [if ?c then _ else _] => destruct c end;
      try discriminate.
    + intros H; apply app_eq_nil in H; tauto.
    + intros H; apply app_eq_nil in H; destruct H as [_ H]; discriminate.
    + destruct (decimal (N.pos s)) as [|d [|d' more]];
        [congruence | discriminate | discriminate].
    + destruct (decimal (N.pos s)) as [|d [|d' more]];
        [congruence | discriminate | discriminate].
Qed.

Lemma graphic_ends (s : jsstring) :
  Forall graphic s -> leading_ws s = false /\ trailing_ws s = false.
Proof.
  intros H; split.
  - destruct s; [reflexivity | now inversion H].
  - unfold trailing_ws. apply Forall_rev in H.
    destruct (rev s); [reflexivity | now inversion H].
Qed.

(** ** The loops *)

Section LoopFacts.

Variable recurse : value -> result.

Lemma own_candidate_value (k : jsstring) (props : list (jsstring * value)) :
  own_candidate recurse k props = option_map recurse (own_value k props).
Proof.
  induction props as [|[k' v] props IH]; simpl; [reflexivity|].
  destruct (str_eqb k k'); [reflexivity | exact IH].
Qed.

Lemma own_value_In (k : jsstring) (props : list (jsstring * value)) (v : value) :
  own_value k props = Some v -> In (k, v) props.
Proof.
  induction props as [|[k' v'] props IH]; simpl; [discriminate|].
  destruct (str_eqb k k') eqn:E.
  - apply str_eqb_eq in E; intros [= ->]; subst; now left.
  - intros H; right; auto.
Qed.

Lemma elem_candidate_nth (j i : nat) (elems : list value) :
  (i <= j)%nat ->
  elem_candidate recurse (index_key j) i elems
  = option_map recurse (nth_error elems (j - i)).
Proof.
  revert i; induction elems as [|v elems IH]; intros i Hij; simpl.
  - now destruct (j - i)%nat.
  - destruct (str_eqb (index_key j) (index_key i)) eqn:E.
    + apply str_eqb_eq, index_key_inj in E; subst.
      now rewrite Nat.sub_diag.
    + assert (j <> i) by (intros ->; now rewrite str_eqb_refl in E).
      rewrite IH by lia.
      replace (j - i)%nat with (S (j - S i)) by lia; reflexivity.
Qed.

Lemma elem_candidate_named (k : jsstring) (i : nat) (elems : list value) :
  forallb is_digit k = false -> elem_candidate recurse k i elems = None.
Proof.
  intros Hk; revert i; induction elems as [|v elems IH]; intros i; simpl;
    [reflexivity|].
  destruct (str_eqb k (index_key i)) eqn:E; [|apply IH].
  apply str_eqb_eq in E; subst.
  unfold index_key in Hk; rewrite decimal_digits in Hk; discriminate.
Qed.

Lemma scan_keys_ext (f g : jsstring -> option result) (keys : list jsstring) :
  (forall k, In k keys -> f k = g k) -> scan_keys f keys = scan_keys g keys.
Proof.
  induction keys as [|k keys IH]; intros H; simpl; [reflexivity|].
  rewrite (H k) by now left.
  rewrite IH by (intros; apply H; now right); reflexivity.
Qed.

Lemma scan_keys_found (f : jsstring -> option result) (keys : list jsstring)
      (c : jsstring) :
  scan_keys f keys = Some c ->
  c <> [] /\ exists k, In k keys /\ f k = Some (Some c).
Proof.
  induction keys as [|k keys IH]; simpl; [discriminate|].
  destruct (f k) as [cand|] eqn:E.
  - destruct (truthy cand) eqn:T.
    + intros ->; split.
      * intros ->; discriminate.
      * exists k; auto.
    + intros H; destruct (IH H) as [H1 [k' [H2 H3]]]; eauto.
  - intros H; destruct (IH H) as [H1 [k' [H2 H3]]]; eauto.
Qed.

Lemma scan_keys_first (f : jsstring -> option result) (pre post : list jsstring)
      (k : jsstring) (c : result) :
  (forall k', In k' pre ->
              match f k' with Some c' => truthy c' = false | None => True end) ->
  f k = Some c -> truthy c = true ->
  scan_keys f (pre ++ k :: post) = c.
Proof.
  intros Hpre Hk Hc; induction pre as [|k' pre IH]; simpl.
  - now rewrite Hk, Hc.
  - pose proof (Hpre k' (or_introl eq_refl)) as H.
    destruct (f k') as [c'|]; [rewrite H|]; apply IH; intros; apply Hpre;
      now right.
Qed.

Lemma scan_keys_none (f : jsstring -> option result) (keys : list jsstring) :
  (forall k, In k keys -> f k = None) -> scan_keys f keys = None.
Proof.
  induction keys as [|k keys IH]; intros H; simpl; [reflexivity|].
  rewrite (H k) by now left. apply IH; intros; apply H; now right.
Qed.

Lemma scan_elems_first (elems : list value) :
  scan_elems recurse elems = first_truthy (map recurse elems).
Proof. induction elems as [|v elems IH]; simpl; [|rewrite IH]; reflexivity. Qed.

(** The [for ... in] loop over an array visits the elements in order. *)
Lemma scan_index_keys (done todo : list value) :
  scan_keys (fun k => elem_candidate recurse k 0 (done ++ todo))
    (map index_key (seq (length done) (length todo)))
  = scan_elems recurse todo.
Proof.
  revert done; induction todo as [|v todo IH]; intros done; simpl;
    [reflexivity|].
  rewrite elem_candidate_nth by lia.
  rewrite Nat.sub_0_r, nth_error_app2, Nat.sub_diag by lia; simpl.
  specialize (IH (done ++ [v])).
  rewrite <- app_assoc, length_app, Nat.add_comm in IH; simpl in IH.
  rewrite IH; reflexivity.
Qed.

Lemma elem_candidate_value (k : jsstring) (i : nat) (elems : list value) :
  elem_candidate recurse k i elems = option_map recurse (elem_value k i elems).
Proof.
  revert i; induction elems as [|v elems IH]; intros i; simpl; [reflexivity|].
  destruct (str_eqb k (index_key i)); [reflexivity | apply IH].
Qed.

Lemma elem_value_In (k : jsstring) (i : nat) (elems : list value) (v : value) :
  elem_value k i elems = Some v -> In v elems.
Proof.
  revert i; induction elems as [|v' elems IH]; intros i; simpl; [discriminate|].
  destruct (str_eqb k (index_key i)).
  - intros [= ->]; now left.
  - intros H; right; eauto.
Qed.

Lemma elem_candidate_absent (k : jsstring) (i : nat) (elems : list value) :
  ~ In k (map index_key (seq i (length elems))) ->
  elem_candidate recurse k i elems = None.
Proof.
  revert i; induction elems as [|v elems IH]; intros i H; simpl; [reflexivity|].
  simpl in H.
  destruct (str_eqb k (index_key i)) eqn:E.
  - apply str_eqb_eq in E; subst; exfalso; apply H; now left.
  - apply IH; intros Hin; apply H; now right.
Qed.

Lemma scan_keys_app (f : jsstring -> option result) (a b : list jsstring) :
  scan_keys f (a ++ b)
  = match scan_keys f a with
    | Some c => Some c
    | None => scan_keys f b
    end.
Proof.
  induction a as [|k a IH]; simpl; [reflexivity|].
  destruct (f k) as [cand|]; [|exact IH].
  destruct (truthy cand) eqn:T; [|exact IH].
  destruct cand; [reflexivity | discriminate].
Qed.

(** On an array the priority loop only meets the named properties. *)
Lemma array_priority_scan (elems : list value) (props : list (jsstring * value)) :
  scan_keys (array_candidate recurse elems props) priorityKeys
  = scan_keys (fun k => own_candidate recurse k props) priorityKeys.
Proof.
  apply scan_keys_ext; intros k Hk; unfold array_candidate.
  rewrite elem_candidate_named; [reflexivity|].
  clear -Hk; unfold priorityKeys in Hk; simpl in Hk.
  repeat (destruct Hk as [<- | Hk]; [reflexivity|]); contradiction.
Qed.

(** The [for ... in] loop over an array begins with the elements, in
    order. *)
Lemma array_index_scan (elems : list value) (props : list (jsstring * value)) :
  scan_keys (array_candidate recurse elems props) (index_keys (length elems))
  = scan_elems recurse elems.
Proof.
  pose proof (scan_index_keys [] elems) as Hin; simpl in Hin.
  rewrite <- Hin; unfold index_keys.
  apply scan_keys_ext; intros k Hk; unfold array_candidate.
  apply in_map_iff in Hk; destruct Hk as [j [<- Hj]]; apply in_seq in Hj.
  rewrite elem_candidate_nth by lia.
  destruct (nth_error elems (j - 0)) eqn:E; [reflexivity|].
  apply nth_error_None in E; lia.
Qed.

End LoopFacts.

Lemma first_truthy_found (rs : list result) (c : jsstring) :
  first_truthy rs = Some c -> c <> [] /\ In (Some c) rs.
Proof.
  induction rs as [|r rs IH]; simpl; [discriminate|].
  destruct (truthy r) eqn:T.
  - intros ->; split; [intros ->; discriminate | now left].
  - intros H; destruct (IH H); auto.
Qed.

Lemma priorityKeys_named :
  forall k, In k priorityKeys -> forallb is_digit k = false.
Proof.
  intros k Hk; unfold priorityKeys in Hk; simpl in Hk.
  repeat (destruct Hk as [<- | Hk]; [reflexivity|]); contradiction.
Qed.

(** ** The branches of the resolver *)

Lemma extractColor_object (props : list (jsstring * value)) (fallback : result) :
  extractColor (VObject props) fallback
  = match priority_pass props with
    | Some c => Some c
    | None => match for_in_pass props with
              | Some c => Some c
              | None => fallback
              end
    end.
Proof. reflexivity. Qed.

(** An array is searched like an object: its named properties under the
    priority keys first, then its elements in order, then the other named
    properties; the [for ... of] loop finds nothing the [for ... in] loop
    left. *)
Lemma extractColor_array (elems : list value) (props : list (jsstring * value))
      (fallback : result) :
  extractColor (VArray elems props) fallback
  = match priority_pass props with
    | Some c => Some c
    | None =>
        match first_truthy (map (fun v => extractColor v None) elems) with
        | Some c => Some c
        | None =>
            match named_pass elems props with
            | Some c => Some c
            | None => fallback
            end
        end
    end.
Proof.
  cbn [extractColor].
  rewrite array_priority_scan, scan_keys_app, array_index_scan.
  rewrite scan_elems_first.
  fold (priority_pass props); fold (named_pass elems props).
  destruct (priority_pass props); [reflexivity|].
  destruct (first_truthy _); [reflexivity|].
  destruct (named_pass elems props); reflexivity.
Qed.

Lemma extractColor_plain_array (elems : list value) (fallback : result) :
  extractColor (VArray elems []) fallback
  = match first_truthy (map (fun v => extractColor v None) elems) with
    | Some c => Some c
    | None => fallback
    end.
Proof.
  rewrite extractColor_array.
  change (priority_pass []) with (@None jsstring).
  destruct (first_truthy _); reflexivity.
Qed.

(** The fallback only matters when the call with the [null] sentinel finds
    nothing. *)
Lemma extractColor_fallback (v : value) (fallback : result) :
  extractColor v fallback
  = match extractColor v None with
    | Some c => Some c
    | None => fallback
    end.
Proof.
  destruct v; try reflexivity.
  - rewrite !extractColor_string. destruct (trim s); reflexivity.
  - rewrite !extractColor_object.
    destruct (priority_pass props); [reflexivity|].
    destruct (for_in_pass props); reflexivity.
  - rewrite !extractColor_array.
    destruct (priority_pass props); [reflexivity|].
    destruct (first_truthy _); [reflexivity|].
    destruct (named_pass elems props); reflexivity.
Qed.

(** What the call with the sentinel returns is a literal of the value, not
    empty and trimmed. *)
Lemma extracted_literal (v : value) (c : jsstring) :
  extractColor v None = Some c ->
  c <> [] /\ leading_ws c = false /\ trailing_ws c = false /\ In c (literals v).
Proof.
  revert c; induction v as [| | | x | s | | | | props IH | elems props IH IHp]
    using value_ind; intros c; try discriminate.
  - simpl; intros [= <-].
    destruct (graphic_ends _ (String_of_number_graphic x)) as [Hl Ht].
    repeat split; auto using String_of_number_nonempty.
  - rewrite extractColor_string.
    destruct (trim s) as [|d t] eqn:E; [discriminate|].
    intros [= <-]; rewrite <- E.
    repeat split; auto using trim_leading, trim_trailing.
    + rewrite E; discriminate.
    + simpl; now left.
  - rewrite extractColor_object.
    assert (Hscan : forall keys,
      scan_keys (fun k => own_candidate (fun v => extractColor v None) k props)
        keys = Some c ->
      c <> [] /\ leading_ws c = false /\ trailing_ws c = false /\
      In c (literals (VObject props))).
    { intros keys H. apply scan_keys_found in H.
      destruct H as [_ [k [_ Hk]]].
      rewrite own_candidate_value in Hk.
      destruct (own_value k props) as [v|] eqn:Ev; [|discriminate].
      simpl in Hk; injection Hk as Hk.
      apply own_value_In in Ev.
      rewrite Forall_forall in IH.
      destruct (IH (k, v) Ev c Hk) as [H1 [H2 [H3 H4]]].
      repeat split; auto.
      simpl; apply in_flat_map; exists (k, v); auto. }
    unfold priority_pass, for_in_pass.
    destruct (scan_keys _ priorityKeys) as [c'|] eqn:E1.
    { intros [= ->]; eauto. }
    destruct (scan_keys _ (keys_of props)) as [c'|] eqn:E2; [|discriminate].
    intros [= ->]; eauto.
  - rewrite Forall_forall in IH, IHp.
    assert (Helem : forall v, In v elems -> extractColor v None = Some c ->
      c <> [] /\ leading_ws c = false /\ trailing_ws c = false /\
      In c (literals (VArray elems props))).
    { intros v Hin Hv. destruct (IH v Hin c Hv) as [H1 [H2 [H3 H4]]].
      repeat split; auto.
      simpl; apply in_or_app; left; apply in_flat_map; exists v; auto. }
    assert (Hprop : forall k, own_candidate (fun v => extractColor v None) k props
                              = Some (Some c) ->
      c <> [] /\ leading_ws c = false /\ trailing_ws c = false /\
      In c (literals (VArray elems props))).
    { intros k Hk. rewrite own_candidate_value in Hk.
      destruct (own_value k props) as [v|] eqn:Ev; [|discriminate].
      simpl in Hk; injection Hk as Hk.
      apply own_value_In in Ev.
      destruct (IHp (k, v) Ev c Hk) as [H1 [H2 [H3 H4]]].
      repeat split; auto.
      simpl; apply in_or_app; right; apply in_flat_map; exists (k, v); auto. }
    rewrite extractColor_array.
    destruct (priority_pass props) as [c'|] eqn:E1.
    { intros [= ->]. apply scan_keys_found in E1.
      destruct E1 as [_ [k [_ Hk]]]; exact (Hprop k Hk). }
    destruct (first_truthy _) as [c'|] eqn:E2.
    { intros [= ->]. apply first_truthy_found in E2; destruct E2 as [_ E2].
      apply in_map_iff in E2; destruct E2 as [v [Hv Hin]].
      exact (Helem v Hin Hv). }
    destruct (named_pass elems props) as [c'|] eqn:E3; [|discriminate].
    intros [= ->]. apply scan_keys_found in E3.
    destruct E3 as [_ [k [_ Hk]]]; unfold array_candidate in Hk.
    rewrite elem_candidate_value in Hk.
    destruct (elem_value k 0 elems) as [v|] eqn:Ev; [|exact (Hprop k Hk)].
    simpl in Hk; injection Hk as Hk.
    apply elem_value_In in Ev; exact (Helem v Ev Hk).
Qed.

Lemma key_candidate_own (props : list (jsstring * value)) (k : jsstring) :
  own_candidate (fun v => extractColor v None) k props
  = option_map (fun v => extractColor v None) (own_value k props).
Proof. apply own_candidate_value. Qed.

(** The priority loop returns the candidate of the first priority key whose
    candidate is usable. *)
Lemma priority_pass_first (props : list (jsstring * value))
      (pre post : list jsstring) (k : jsstring) :
  priorityKeys = pre ++ k :: post ->
  (forall k', In k' pre -> truthy (key_candidate props k') = false) ->
  truthy (key_candidate props k) = true ->
  priority_pass props = key_candidate props k.
Proof.
  intros Hsplit Hpre Hk; unfold priority_pass; rewrite Hsplit.
  unfold key_candidate in Hk.
  destruct (own_value k props) as [v|] eqn:Ev; [|discriminate].
  rewrite (scan_keys_first _ pre post k (extractColor v None)).
  - unfold key_candidate; now rewrite Ev.
  - intros k' Hin; specialize (Hpre k' Hin); unfold key_candidate in Hpre.
    rewrite key_candidate_own.
    destruct (own_value k' props); simpl; auto.
  - rewrite key_candidate_own, Ev; reflexivity.
  - exact Hk.
Qed.

Lemma filter_head {A : Type} (f : A -> bool) (l : list A) (x : A) (r : list A) :
  filter f l = x :: r ->
  exists pre post,
    l = pre ++ x :: post /\ (forall y, In y pre -> f y = false) /\ f x = true.
Proof.
  induction l as [|a l IH]; simpl; [discriminate|].
  destruct (f a) eqn:E.
  - intros [= -> _]; exists [], l; simpl; repeat split; auto; contradiction.
  - intros H; destruct (IH H) as [pre [post [H1 [H2 H3]]]].
    exists (a :: pre), post; subst; simpl; repeat split; auto.
    intros y [<- | Hy]; auto.
Qed.

Lemma truthy_some (c : result) :
  truthy c = true -> exists s, c = Some s /\ s <> [].
Proof.
  destruct c as [[|d s]|]; try discriminate.
  intros _; exists (d :: s); split; [reflexivity | discriminate].
Qed.

(** ** The resolver on small inputs *)

Example resolve_number_42 :
  extractColor (VNumber (Finite false 42 2)) (Some default_fallback)
  = Some (lit "42").
Proof. reflexivity. Qed.

Example resolve_empty_object :
  extractColor (VObject []) (Some (lit "#777777")) = Some (lit "#777777").
Proof. reflexivity. Qed.

Example resolve_padded_rgba :
  extractColor (VString (lit "  RGBA(0,0,0,0.08) ")) (Some default_fallback)
  = Some (lit "RGBA(0,0,0,0.08)").
Proof. reflexivity. Qed.

Example resolve_nested_array :
  extractColor
    (VArray [VNull; VString (lit " "); VArray [VBool true; VString (lit "teal")] []] [])
    (Some default_fallback)
  = Some (lit "teal").
Proof. reflexivity. Qed.

Example recognisers_on_samples :
  isHex (lit "#a1b2c3ff") = true /\ isHex (lit "#a1") = false
  /\ isRgb (lit "RgBa(1,2,3,1)") = true /\ isRgb (lit "rgb") = false
  /\ isColorName (lit "teal") = true /\ isColorName (lit "teal-500") = false.
Proof. repeat split; reflexivity. Qed.

(** [null], [undefined] and blank strings resolve to nothing under the
    sentinel. *)
Lemma absent_resolves_to_nothing :
  resolves_to_nothing VNull = true /\ resolves_to_nothing VUndefined = true.
Proof. split; reflexivity. Qed.

Lemma blank_resolves_to_nothing (str : jsstring) :
  trim str = [] -> resolves_to_nothing (VString str) = true.
Proof.
  intros H; unfold resolves_to_nothing.
  now rewrite extractColor_string, H.
Qed.

(** ** The properties of the resolver *)

(** C2, as stated, fails: on [null] with the empty string as fallback the
    result is the empty string. *)
Lemma empty_fallback_returned :
  ~ (exists r : jsstring,
        extractColor VNull (Some (lit "")) = Some r /\ r <> []).
Proof. intros [r [[= <-] H]]; now apply H. Qed.

(** C2, amended: with a non-empty fallback the result is a non-empty string,
    either a literal of the theme value or the fallback. *)
Theorem resolved_nonempty (v : value) (fallback : jsstring) :
  fallback <> [] ->
  exists r : jsstring,
    extractColor v (Some fallback) = Some r /\ r <> [] /\
    (In r (literals v) \/ r = fallback).
Proof.
  intros Hfb; rewrite extractColor_fallback.
  destruct (extractColor v None) as [c|] eqn:E.
  - destruct (extracted_literal v c E) as [H1 [_ [_ H4]]]; eauto.
  - eauto.
Qed.

Lemma resolved_nonempty_witness :
  exists r : jsstring,
    extractColor nested_primary (Some default_fallback) = Some r /\ r <> [] /\
    (In r (literals nested_primary) \/ r = default_fallback).
Proof. apply (resolved_nonempty nested_primary default_fallback); discriminate. Defined.

(** C4, as stated, fails: [primary] is a priority key, and the priority loop
    of the outer object already returns the colour, so the scan of the
    remaining keys is never reached. *)
Lemma primary_is_priority_key :
  ~ (extractColor nested_primary (Some default_fallback) = Some (lit "#112233")
     /\ ~ In (lit "primary") priorityKeys
     /\ priority_pass nested_primary_props = None).
Proof. intros [_ [_ H]]; vm_compute in H; discriminate. Qed.

(** C4, amended: [{ primary: { DEFAULT: "#112233" } }] resolves to
    ["#112233"] with any fallback; [primary] is itself a priority key, found by
    the priority loop of the outer object, and [DEFAULT] is a priority key of
    the inner one. *)
Theorem nested_primary_resolved (fallback : result) :
  extractColor nested_primary fallback = Some (lit "#112233")
  /\ In (lit "primary") priorityKeys
  /\ priority_pass nested_primary_props = Some (lit "#112233")
  /\ In (lit "DEFAULT") priorityKeys.
Proof.
  repeat split; try reflexivity; unfold priorityKeys; simpl; auto 12.
Qed.

(** C6: on a string the resolver returns the trimmed string when that is not
    empty, whatever it looks like, and the fallback exactly when it is
    empty. *)
Theorem string_returns_trimmed (str fallback : jsstring) :
  extractColor (VString str) (Some fallback)
  = Some (match trim str with [] => fallback | _ :: _ => trim str end)
  /\ extractColor (VString str) None
     = match trim str with [] => None | _ :: _ => Some (trim str) end.
Proof.
  rewrite !extractColor_string; destruct (trim str); split; reflexivity.
Qed.

(** C8, as stated, fails: a fallback with white space around it is returned
    as it is the first time and trimmed the second time. *)
Lemma padded_fallback_not_stable :
  extractColor VNull (Some (lit " red ")) = Some (lit " red ")
  /\ extractColor (VString (lit " red ")) (Some (lit " red "))
     <> Some (lit " red ").
Proof. split; [reflexivity | vm_compute; discriminate]. Qed.

(** C8, amended: resolving the returned string again, with the same fallback,
    gives it back unchanged whenever it was not the fallback, or the fallback
    has no white space at its ends, or the fallback is blank. *)
Theorem re_resolution_stable (v : value) (fallback r : jsstring) :
  extractColor v (Some fallback) = Some r ->
  r <> fallback \/ trim fallback = fallback \/ trim fallback = [] ->
  extractColor (VString r) (Some fallback) = Some r.
Proof.
  rewrite extractColor_fallback, extractColor_string.
  destruct (extractColor v None) as [c|] eqn:E.
  - intros [= <-] _.
    destruct (extracted_literal v c E) as [H1 [H2 [H3 _]]].
    rewrite (trim_fixed c H2 H3).
    destruct c; [contradiction | reflexivity].
  - intros [= <-] [H | [H | H]].
    + contradiction.
    + rewrite H; destruct fallback; reflexivity.
    + rewrite H; reflexivity.
Qed.

Lemma re_resolution_stable_witness :
  extractColor (VString (lit "#112233")) (Some default_fallback)
  = Some (lit "#112233").
Proof.
  apply (re_resolution_stable nested_primary default_fallback (lit "#112233")).
  - reflexivity.
  - left; discriminate.
Defined.

(** C9: on a boolean the resolver returns the fallback. *)
Theorem boolean_returns_fallback (b : bool) (fallback : jsstring) :
  extractColor (VBool b) (Some fallback) = Some fallback.
Proof. reflexivity. Qed.

(** C10: a result that differs from the fallback is a non-empty string with
    no white space at its start or at its end. *)
Theorem extracted_is_trimmed (v : value) (fallback r : jsstring) :
  extractColor v (Some fallback) = Some r ->
  r <> fallback ->
  r <> [] /\ leading_ws r = false /\ trailing_ws r = false.
Proof.
  rewrite extractColor_fallback.
  destruct (extractColor v None) as [c|] eqn:E.
  - intros [= <-] _.
    destruct (extracted_literal v c E) as [H1 [H2 [H3 _]]]; auto.
  - intros [= <-] H; contradiction.
Qed.

Lemma extracted_is_trimmed_witness :
  lit "#fff" <> []
  /\ leading_ws (lit "#fff") = false /\ trailing_ws (lit "#fff") = false.
Proof.
  apply (extracted_is_trimmed (VArray [VNull; VString (lit "  #fff ")] [])
           default_fallback (lit "#fff")).
  - reflexivity.
  - discriminate.
Defined.

(** ** More on trimming and on the recognisers *)

Lemma trimStart_blank_app (pre s : jsstring) :
  blank pre = true -> trimStart (pre ++ s) = trimStart s.
Proof.
  induction pre as [|c pre IH]; simpl; [reflexivity|].
  intros H; apply andb_true_iff in H; destruct H as [Hc Hpre].
  rewrite Hc; auto.
Qed.

Lemma blank_rev (s : jsstring) : blank s = true -> blank (rev s) = true.
Proof.
  unfold blank; rewrite !forallb_forall; intros H c Hc.
  apply H, in_rev, Hc.
Qed.

Lemma trimEnd_app_blank (s post : jsstring) :
  blank post = true -> trimEnd (s ++ post) = trimEnd s.
Proof.
  intros H; unfold trimEnd.
  rewrite rev_app_distr, trimStart_blank_app by now apply blank_rev.
  reflexivity.
Qed.

Lemma trimStart_nil_blank (s : jsstring) : trimStart s = [] -> blank s = true.
Proof.
  induction s as [|c s IH]; simpl; [reflexivity|].
  destruct (is_white_space c); [exact IH | discriminate].
Qed.

Lemma trimStart_app (s post : jsstring) :
  trimStart s <> [] -> trimStart (s ++ post) = trimStart s ++ post.
Proof.
  induction s as [|c s IH]; simpl; [congruence|].
  destruct (is_white_space c); [exact IH | reflexivity].
Qed.

Lemma blank_app (s t : jsstring) :
  blank s = true -> blank t = true -> blank (s ++ t) = true.
Proof. unfold blank; rewrite forallb_app; now intros -> ->. Qed.

(** White space around a string does not survive [trim]. *)
Lemma trim_padding (pre s post : jsstring) :
  blank pre = true -> blank post = true -> trim (pre ++ s ++ post) = trim s.
Proof.
  intros Hpre Hpost; unfold trim.
  rewrite trimStart_blank_app by exact Hpre.
  destruct (trimStart s) as [|c t] eqn:E.
  - pose proof (trimStart_nil_blank s E) as Hs.
    rewrite <- (app_nil_r (s ++ post)).
    rewrite trimStart_blank_app by now apply blank_app.
    reflexivity.
  - rewrite trimStart_app by (rewrite E; discriminate).
    rewrite E; now apply trimEnd_app_blank.
Qed.

Lemma trim_graphic (s : jsstring) : Forall graphic s -> trim s = s.
Proof. intros H; destruct (graphic_ends s H); now apply trim_fixed. Qed.

Lemma hex_digit_graphic (c : N) : is_hex_digit c = true -> graphic c.
Proof.
  unfold is_hex_digit, is_digit, graphic, is_white_space; intros H.
  repeat rewrite orb_true_iff in H; repeat rewrite andb_true_iff in H.
  repeat rewrite N.leb_le in H.
  repeat rewrite orb_false_iff; repeat split;
    try (apply N.eqb_neq; lia).
  apply andb_false_iff; left; apply N.leb_gt; lia.
Qed.

Lemma ci_graphic (lower c : N) :
  97 <= lower <= 122 -> ci lower c = true -> graphic c.
Proof.
  unfold ci, graphic, is_white_space; intros Hl H.
  apply orb_true_iff in H; repeat rewrite N.eqb_eq in H.
  repeat rewrite orb_false_iff; repeat split;
    try (apply N.eqb_neq; lia).
  apply andb_false_iff; left; apply N.leb_gt; lia.
Qed.

Lemma isHex_shape (s : jsstring) :
  isHex s = true -> exists ds, trim s = 35 :: ds.
Proof.
  unfold isHex; destruct (trim s) as [|c ds]; [discriminate|].
  destruct c as [|p]; [discriminate|].
  do 6 (destruct p as [p|p|]; try discriminate).
  intros _; now exists ds.
Qed.

Lemma paren_match (rest : jsstring) :
  match rest with
  | 40 :: _ => true
  | a :: 40 :: _ => ci 97 a
  | _ => false
  end
  = match rest with
    | [] => false
    | c :: rest' =>
        if c =? 40 then true
        else match rest' with
             | [] => false
             | c' :: _ => if c' =? 40 then ci 97 c else false
             end
    end.
Proof.
  destruct rest as [|c rest]; [reflexivity|].
  destruct c as [|c]; [|do 6 (try (destruct c as [c|c|]; try reflexivity))];
    (destruct rest as [|d rest]; [reflexivity|]);
    (destruct d as [|d];
     [reflexivity | do 6 (try (destruct d as [d|d|]; try reflexivity))]).
Qed.

Lemma isRgb_eq (s : jsstring) :
  isRgb s
  = match trim s with
    | r :: g :: b :: c :: rest =>
        ci 114 r && ci 103 g && ci 98 b &&
        (if c =? 40 then true
         else match rest with
              | [] => false
              | c' :: _ => if c' =? 40 then ci 97 c else false
              end)
    | _ => false
    end.
Proof.
  unfold isRgb; destruct (trim s) as [|r [|g [|b rest]]]; try reflexivity.
  rewrite paren_match; destruct rest; [apply andb_false_r | reflexivity].
Qed.

Lemma isRgb_shape (s : jsstring) :
  isRgb s = true ->
  exists r g b rest,
    trim s = r :: g :: b :: rest /\ ci 114 r = true /\ In 40 rest.
Proof.
  unfold isRgb; destruct (trim s) as [|r [|g [|b rest]]]; try discriminate.
  rewrite paren_match.
  intros H; repeat (apply andb_true_iff in H; destruct H as [H ?]).
  exists r, g, b, rest; repeat split; auto.
  destruct rest as [|c rest]; [discriminate|].
  destruct (N.eqb_spec c 40) as [-> | _]; [now left|].
  destruct rest as [|c' rest]; [discriminate|].
  destruct (N.eqb_spec c' 40) as [-> | _]; [right; now left | discriminate].
Qed.

(** X1: white space around a string value never changes what the resolver
    returns for it. *)
Theorem padding_ignored (pre s post : jsstring) (fallback : result) :
  blank pre = true -> blank post = true ->
  extractColor (VString (pre ++ s ++ post)) fallback
  = extractColor (VString s) fallback.
Proof.
  intros Hpre Hpost.
  now rewrite !extractColor_string, trim_padding.
Qed.

Lemma padding_ignored_witness :
  extractColor (VString (lit "  " ++ lit "#fff" ++ [9; 10])) (Some default_fallback)
  = extractColor (VString (lit "#fff")) (Some default_fallback).
Proof. apply padding_ignored; reflexivity. Defined.

(** X2: the three recognisers exclude one another: no string is accepted by
    two of [isHex], [isRgb] and [isColorName]. *)
Theorem recognisers_exclusive (s : jsstring) :
  isHex s && isRgb s = false
  /\ isHex s && isColorName s = false
  /\ isRgb s && isColorName s = false.
Proof.
  repeat split.
  - destruct (isHex s) eqn:Hh; [simpl | reflexivity].
    destruct (isHex_shape s Hh) as [ds E].
    unfold isRgb; rewrite E.
    destruct ds as [|g [|b rest]]; reflexivity.
  - destruct (isHex s) eqn:Hh; [simpl | reflexivity].
    destruct (isHex_shape s Hh) as [ds E].
    unfold isColorName; rewrite E; reflexivity.
  - destruct (isRgb s) eqn:Hr; [simpl | reflexivity].
    destruct (isRgb_shape s Hr) as [r [g [b [rest [E [_ Hin]]]]]].
    unfold isColorName; rewrite E.
    apply not_true_is_false; intros H.
    rewrite forallb_forall in H.
    specialize (H 40 (or_intror (or_intror (or_intror Hin)))).
    discriminate.
Qed.

(** X3: [isHex] accepts a [#] followed by hexadecimal digits exactly when
    there are three to eight of them, the lengths 5 and 7 included, whatever
    white space surrounds the string. *)
Theorem isHex_by_length (pre ds post : jsstring) :
  blank pre = true -> blank post = true ->
  forallb is_hex_digit ds = true ->
  isHex (pre ++ (35 :: ds) ++ post)
  = (3 <=? length ds)%nat && (length ds <=? 8)%nat.
Proof.
  intros Hpre Hpost Hds; unfold isHex.
  rewrite trim_padding by assumption.
  rewrite trim_graphic.
  - rewrite Hds; apply andb_true_r.
  - constructor; [reflexivity|].
    apply Forall_forall; intros c Hc; apply hex_digit_graphic.
    rewrite forallb_forall in Hds; auto.
Qed.

Lemma isHex_by_length_witness :
  isHex (lit " " ++ (35 :: lit "a1b2c") ++ lit " ")
  = (3 <=? length (lit "a1b2c"))%nat && (length (lit "a1b2c") <=? 8)%nat.
Proof. apply isHex_by_length; reflexivity. Defined.

(** X4: [isRgb] looks at the start only: after optional white space, [rgb(]
    or [rgba(] in any letter case is accepted whatever follows. *)
Theorem isRgb_prefix_only (pre rest : jsstring) (r g b a : N) :
  blank pre = true ->
  ci 114 r = true -> ci 103 g = true -> ci 98 b = true -> ci 97 a = true ->
  isRgb (pre ++ r :: g :: b :: 40 :: rest) = true
  /\ isRgb (pre ++ r :: g :: b :: a :: 40 :: rest) = true.
Proof.
  intros Hpre Hr Hg Hb Ha.
  assert (Gr : graphic r) by (apply (ci_graphic 114); [lia | exact Hr]).
  assert (Gg : graphic g) by (apply (ci_graphic 103); [lia | exact Hg]).
  assert (Gb : graphic b) by (apply (ci_graphic 98); [lia | exact Hb]).
  assert (Ga : graphic a) by (apply (ci_graphic 97); [lia | exact Ha]).
  assert (Gp : graphic 40) by reflexivity.
  split; rewrite isRgb_eq; unfold trim;
    rewrite trimStart_blank_app by exact Hpre;
    simpl trimStart; rewrite Gr; rewrite !trimEnd_cons by assumption;
    rewrite Hr, Hg, Hb; simpl; [reflexivity|].
  destruct (a =? 40); [reflexivity | exact Ha].
Qed.

Lemma isRgb_prefix_only_witness :
  isRgb (lit "  " ++ 82 :: 103 :: 66 :: 40 :: lit "oops") = true
  /\ isRgb (lit "  " ++ 82 :: 103 :: 66 :: 65 :: 40 :: lit "oops") = true.
Proof. apply isRgb_prefix_only; reflexivity. Defined.

(** ** What the resolver finds and what it misses *)

Lemma scan_keys_none_inv (f : jsstring -> option result) (keys : list jsstring) :
  scan_keys f keys = None ->
  forall k c, In k keys -> f k = Some c -> truthy c = false.
Proof.
  induction keys as [|k keys IH]; simpl; [contradiction|].
  intros H k' c [<- | Hin] Hk.
  - rewrite Hk in H. destruct (truthy c) eqn:T; [|reflexivity].
    subst c; discriminate.
  - apply (IH (ltac:(destruct (f k) as [c'|]; [destruct (truthy c') eqn:T|];
                   [subst c'; discriminate | exact H | exact H])) k' c Hin Hk).
Qed.

Lemma scan_keys_all_falsy (f : jsstring -> option result) (keys : list jsstring) :
  (forall k c, In k keys -> f k = Some c -> truthy c = false) ->
  scan_keys f keys = None.
Proof.
  induction keys as [|k keys IH]; intros H; simpl; [reflexivity|].
  destruct (f k) as [c|] eqn:E.
  - rewrite (H k c (or_introl eq_refl) E).
    apply IH; intros; eapply H; eauto; now right.
  - apply IH; intros; eapply H; eauto; now right.
Qed.

Lemma first_truthy_none (rs : list result) :
  first_truthy rs = None -> forall r, In r rs -> truthy r = false.
Proof.
  induction rs as [|r rs IH]; simpl; [contradiction|].
  destruct (truthy r) eqn:T.
  - intros ->; discriminate.
  - intros H r' [<- | Hin]; auto.
Qed.

Lemma existsb_key (k : jsstring) (keys : list jsstring) :
  existsb (str_eqb k) keys = true <-> In k keys.
Proof.
  rewrite existsb_exists; split.
  - intros [k' [Hin E]]; apply str_eqb_eq in E; now subst.
  - intros Hin; exists k; split; [exact Hin | apply str_eqb_refl].
Qed.

Lemma own_value_distinct (props : list (jsstring * value))
      (k : jsstring) (v : value) :
  distinct (keys_of props) = true -> In (k, v) props ->
  own_value k props = Some v.
Proof.
  induction props as [|[k' v'] props IH]; simpl; [contradiction|].
  intros H Hin; apply andb_true_iff in H; destruct H as [Hk' Hd].
  destruct (str_eqb k k') eqn:E.
  - apply str_eqb_eq in E; subst k'.
    destruct Hin as [[= ->] | Hin]; [reflexivity|].
    apply negb_true_iff in Hk'.
    assert (Hex : existsb (str_eqb k) (keys_of props) = true).
    { apply existsb_key, in_map_iff; exists (k, v); auto. }
    congruence.
  - destruct Hin as [[= -> ->] | Hin]; [now rewrite str_eqb_refl in E | auto].
Qed.

Lemma falsy_sentinel (v : value) :
  truthy (extractColor v None) = false -> extractColor v None = None.
Proof.
  destruct (extractColor v None) as [c|] eqn:E; [|reflexivity].
  destruct (extracted_literal v c E) as [H _].
  destruct c; [contradiction | discriminate].
Qed.

(** With each property name once, the [for ... in] loop returns the first
    usable candidate in enumeration order. *)
Lemma for_in_first (done todo : list (jsstring * value)) :
  distinct (keys_of (done ++ todo)) = true ->
  scan_keys
    (fun k => own_candidate (fun v => extractColor v None) k (done ++ todo))
    (keys_of todo)
  = first_truthy (map (fun p => extractColor (snd p) None) todo).
Proof.
  revert done; induction todo as [|[k v] todo IH]; intros done Hd; simpl;
    [reflexivity|].
  rewrite key_candidate_own.
  rewrite (own_value_distinct _ k v Hd)
    by (apply in_or_app; right; now left).
  simpl. specialize (IH (done ++ [(k, v)])).
  rewrite <- app_assoc in IH; simpl in IH; rewrite (IH Hd).
  destruct (truthy (extractColor v None)); reflexivity.
Qed.

Lemma distinct_app (a b : list jsstring) :
  distinct (a ++ b) = true ->
  distinct a = true /\ distinct b = true
  /\ (forall k, In k a -> In k b -> False).
Proof.
  induction a as [|x a IH]; simpl.
  - intros H; repeat split; auto.
  - intros H; apply andb_true_iff in H; destruct H as [Hx Hd].
    rewrite existsb_app, negb_orb in Hx.
    apply andb_true_iff in Hx; destruct Hx as [Hxa Hxb].
    destruct (IH Hd) as [Ha [Hb Hab]].
    repeat split; [now rewrite Hxa, Ha | exact Hb |].
    intros k [<- | Hk] Hkb; [|eauto].
    apply existsb_key in Hkb; rewrite Hkb in Hxb; discriminate.
Qed.

(** Where the sentinel call finds nothing, there is nothing to find. *)
Lemma nothing_found (v : value) :
  unique_keys v = true -> extractColor v None = None ->
  Forall (fun l => l = []) (literals v).
Proof.
  induction v as [| | | x | s | | | | props IH | elems props IH IHp]
    using value_ind;
    intros Hu H; try (now constructor); try (simpl in H; discriminate).
  - rewrite extractColor_string in H; simpl.
    destruct (trim s); [now repeat constructor | discriminate].
  - simpl in Hu; apply andb_true_iff in Hu; destruct Hu as [Hd Hu].
    rewrite extractColor_object in H.
    destruct (priority_pass props); [discriminate|].
    destruct (for_in_pass props) eqn:E; [discriminate|].
    unfold for_in_pass in E.
    pose proof (for_in_first [] props Hd) as Hfirst; simpl in Hfirst.
    rewrite Hfirst in E.
    simpl; apply Forall_flat_map, Forall_forall; intros [k v] Hin.
    rewrite Forall_forall in IH; rewrite forallb_forall in Hu.
    apply (IH (k, v) Hin (Hu (k, v) Hin)).
    apply falsy_sentinel, (first_truthy_none _ E).
    apply in_map_iff; exists (k, v); auto.
  - simpl in Hu; apply andb_true_iff in Hu; destruct Hu as [Hu Hup].
    apply andb_true_iff in Hu; destruct Hu as [Hd Hue].
    destruct (distinct_app _ _ Hd) as [_ [Hdp Hdis]].
    rewrite extractColor_array in H.
    destruct (priority_pass props); [discriminate|].
    destruct (first_truthy _) eqn:E; [discriminate|].
    destruct (named_pass elems props) eqn:E3; [discriminate|].
    rewrite Forall_forall in IH, IHp; rewrite forallb_forall in Hue, Hup.
    simpl; apply Forall_app; split.
    + apply Forall_flat_map, Forall_forall; intros v Hin.
      apply (IH v Hin (Hue v Hin)).
      apply falsy_sentinel, (first_truthy_none _ E).
      apply in_map_iff; exists v; auto.
    + apply Forall_flat_map, Forall_forall; intros [k v] Hin.
      apply (IHp (k, v) Hin (Hup (k, v) Hin)).
      apply falsy_sentinel.
      assert (Hk : In k (keys_of props))
        by (apply in_map_iff; exists (k, v); auto).
      apply (scan_keys_none_inv _ _ E3 k _ Hk).
      unfold array_candidate.
      rewrite elem_candidate_absent by (intros Hi; exact (Hdis k Hi Hk)).
      now rewrite key_candidate_own, (own_value_distinct props k v Hdp Hin).
Qed.

(** X5: the search is complete: when the value, with each property name once
    per object, holds a non-empty literal anywhere, the resolver returns a
    non-empty literal of the value and never the fallback. *)
Theorem literal_found (v : value) (fallback : result) (l : jsstring) :
  unique_keys v = true -> In l (literals v) -> l <> [] ->
  exists c, extractColor v fallback = Some c /\ c <> [] /\ In c (literals v).
Proof.
  intros Hu Hin Hne; rewrite extractColor_fallback.
  destruct (extractColor v None) as [c|] eqn:E.
  - destruct (extracted_literal v c E) as [H1 [_ [_ H4]]]; eauto.
  - pose proof (nothing_found v Hu E) as Hall.
    rewrite Forall_forall in Hall; now apply Hall in Hin.
Qed.

Lemma literal_found_witness :
  exists c,
    extractColor
      (VObject [(lit "shades", VArray [VNull; VObject [(lit "x", VString (lit " teal "))]] [])])
      (Some default_fallback) = Some c
    /\ c <> []
    /\ In c (literals
               (VObject [(lit "shades", VArray [VNull; VObject [(lit "x", VString (lit " teal "))]] [])])).
Proof.
  apply (literal_found _ _ (lit "teal")).
  - reflexivity.
  - simpl; now left.
  - discriminate.
Defined.

(** X6: when every literal of the value is empty (blank strings only, no
    number), the resolver returns the fallback. *)
Theorem nothing_usable_gives_fallback (v : value) (fallback : result) :
  Forall (fun l => l = []) (literals v) -> extractColor v fallback = fallback.
Proof.
  intros Hall; rewrite extractColor_fallback.
  destruct (extractColor v None) as [c|] eqn:E; [|reflexivity].
  destruct (extracted_literal v c E) as [H1 [_ [_ H4]]].
  rewrite Forall_forall in Hall; now apply Hall in H4.
Qed.

Lemma nothing_usable_gives_fallback_witness :
  extractColor
    (VObject [(lit "hex", VString (lit "  ")); (lit "shades", VArray [VNull; VBool true] [])])
    (Some default_fallback)
  = Some default_fallback.
Proof. apply nothing_usable_gives_fallback; simpl; repeat constructor. Defined.

(** X7: the fallback never influences what is extracted: with two fallbacks
    the resolver either returns the same string for both or gives each its own
    fallback back. *)
Theorem fallback_independent (v : value) (fallback1 fallback2 : result) :
  extractColor v fallback1 = extractColor v fallback2
  \/ (extractColor v fallback1 = fallback1
      /\ extractColor v fallback2 = fallback2).
Proof.
  rewrite (extractColor_fallback v fallback1), (extractColor_fallback v fallback2).
  destruct (extractColor v None); [left | right]; auto.
Qed.

(** X8: in an object with each property name once and no priority key with a
    usable value, the resolver returns the first usable property in
    enumeration order, and the fallback when there is none. *)
Theorem first_usable_property
        (props : list (jsstring * value)) (fallback : result) :
  distinct (keys_of props) = true ->
  usable_priority_keys props = [] ->
  extractColor (VObject props) fallback
  = match first_truthy (map (fun p => extractColor (snd p) None) props) with
    | Some c => Some c
    | None => fallback
    end.
Proof.
  intros Hd Hu; rewrite extractColor_object.
  assert (Hp : priority_pass props = None).
  { apply scan_keys_all_falsy; intros k c Hin Hk.
    assert (Hf : In k (usable_priority_keys props) -> False)
      by (rewrite Hu; contradiction).
    destruct (truthy c) eqn:T; [exfalso | reflexivity].
    apply Hf, filter_In; split; [exact Hin|].
    rewrite key_candidate_own in Hk; unfold key_candidate.
    destruct (own_value k props); [|discriminate].
    simpl in Hk; injection Hk as ->; exact T. }
  rewrite Hp; unfold for_in_pass.
  pose proof (for_in_first [] props Hd) as Hfirst; simpl in Hfirst.
  now rewrite Hfirst.
Qed.

Lemma first_usable_property_witness :
  extractColor
    (VObject [(lit "hex", VNull); (lit "accent", VString (lit " "));
              (lit "brand", VString (lit "#0af")); (lit "muted", VString (lit "#999"))])
    (Some default_fallback)
  = Some (lit "#0af").
Proof.
  apply (first_usable_property
           [(lit "hex", VNull); (lit "accent", VString (lit " "));
            (lit "brand", VString (lit "#0af")); (lit "muted", VString (lit "#999"))]);
    reflexivity.
Defined.

(** X9: nesting is transparent: a value wrapped in a one-element array or in
    an object with a single property, whatever its name, resolves like the
    value itself. *)
Theorem wrapper_transparent (v : value) (k : jsstring) (fallback : result) :
  extractColor (VArray [v] []) fallback = extractColor v fallback
  /\ extractColor (VObject [(k, v)]) fallback = extractColor v fallback.
Proof.
  split.
  - rewrite extractColor_plain_array, (extractColor_fallback v fallback); simpl.
    destruct (truthy (extractColor v None)) eqn:T.
    + destruct (extractColor v None); [reflexivity | discriminate].
    + now rewrite (falsy_sentinel v T).
  - rewrite extractColor_object, (extractColor_fallback v fallback).
    destruct (priority_pass [(k, v)]) as [c|] eqn:Ep.
    + apply scan_keys_found in Ep; destruct Ep as [_ [k' [_ Hk']]].
      simpl in Hk'; destruct (str_eqb k' k); [|discriminate].
      injection Hk' as ->; reflexivity.
    + unfold for_in_pass; simpl; rewrite str_eqb_refl.
      destruct (truthy (extractColor v None)) eqn:T.
      * destruct (extractColor v None); [reflexivity | discriminate].
      * now rewrite (falsy_sentinel v T).
Qed.

(** ** The colours of the screen *)

Lemma colorsObj_not_nullish (themeHook : value) :
  nullish (colorsObj themeHook) = false.
Proof.
  unfold colorsObj, coalesce.
  destruct (nullish (optional_member themeHook (lit "colors"))) eqn:E1;
    [|exact E1].
  destruct (nullish (optional_member themeHook (lit "theme"))) eqn:E2;
    [|exact E2].
  destruct (nullish themeHook) eqn:E3; [reflexivity | exact E3].
Qed.

Lemma member_defined (v : value) (k : jsstring) :
  nullish v = false -> exists x, member v k = Some x.
Proof. destruct v; simpl; try discriminate; eauto. Qed.

Lemma usable_extract (v : value) (fallback : jsstring) :
  usable (Some fallback) = true ->
  usable (extractColor v (Some fallback)) = true.
Proof.
  intros H; rewrite extractColor_fallback.
  destruct (extractColor v None) as [c|] eqn:E; [|exact H].
  destruct (extracted_literal v c E) as [H1 [H2 [H3 _]]].
  destruct c; [contradiction|].
  unfold usable; now rewrite H2, H3.
Qed.

Lemma nothing_gives_fallback (v : value) (fallback : result) :
  resolves_to_nothing v = true -> extractColor v fallback = fallback.
Proof.
  unfold resolves_to_nothing; intros H; apply negb_true_iff in H.
  now rewrite extractColor_fallback, (falsy_sentinel v H).
Qed.

(** X11: a palette entry that is missing, [null] or blank gets the built-in
    colour of the mode: when none of the six entries resolves, the screen uses
    exactly the defaults, the light ones unless [isDark] is truthy. *)
Theorem theme_colors_default (themeHook : value) :
  (forall k x, In k palette_names ->
               member (colorsObj themeHook) k = Some x ->
               resolves_to_nothing x = true) ->
  theme_colors themeHook = Some (default_colors (isDark themeHook)).
Proof.
  intros H; unfold theme_colors.
  pose proof (colorsObj_not_nullish themeHook) as Hn.
  destruct (member_defined _ (lit "background") Hn) as [x1 E1].
  destruct (member_defined _ (lit "text") Hn) as [x2 E2].
  destruct (member_defined _ (lit "card") Hn) as [x3 E3].
  destruct (member_defined _ (lit "border") Hn) as [x4 E4].
  destruct (member_defined _ (lit "primary") Hn) as [x5 E5].
  destruct (member_defined _ (lit "textTertiary") Hn) as [x6 E6].
  rewrite E1, E2, E3, E4, E5, E6; cbn [and_then].
  rewrite !nothing_gives_fallback;
    [reflexivity | ..];
    match goal with
    | E : member _ ?k = Some ?x |- resolves_to_nothing ?x = true =>
        apply (H k x); [unfold palette_names; simpl; auto 10 | exact E]
    end.
Qed.

Lemma theme_colors_default_witness :
  theme_colors (VObject [(lit "isDark", VNumber (Finite false 1 1));
                         (lit "colors", VObject [(lit "text", VString (lit " "))])])
  = Some (default_colors true).
Proof.
  apply (theme_colors_default
           (VObject [(lit "isDark", VNumber (Finite false 1 1));
                     (lit "colors", VObject [(lit "text", VString (lit " "))])])).
  intros k x Hk. unfold palette_names in Hk; simpl in Hk.
  repeat (destruct Hk as [<- | Hk]; [intros [= <-]; reflexivity|]).
  contradiction.
Defined.

(** ** Severity colours and icons *)

(** X12: every severity, known or not, dark mode or not, gets a colour that
    [isHex] accepts, and so is that colour followed by each of the alpha
    suffixes of the badges. *)
Theorem severity_color_is_hex (dark : bool) (severity : option jsstring) :
  isHex (getSeverityColor dark severity) = true
  /\ forallb (fun a => isHex (getSeverityColor dark severity ++ a))
       alpha_suffixes = true.
Proof.
  unfold getSeverityColor.
  destruct severity as [s|];
    [destruct (str_eqb s (lit "high")); [|destruct (str_eqb s (lit "medium"));
       [|destruct (str_eqb s (lit "low"))]]|];
    destruct dark; split; reflexivity.
Qed.

(** X13: the icon tells the record type: a type whose icon is not the default
    [info] shares its icon with no other type. *)
Theorem icon_identifies_type (type1 type2 : jsstring) :
  getRecordIcon type1 <> lit "info" ->
  getRecordIcon type1 = getRecordIcon type2 ->
  type1 = type2.
Proof.
  unfold getRecordIcon.
  destruct (str_eqb type1 (lit "appointment")) eqn:A1;
    [|destruct (str_eqb type1 (lit "medication")) eqn:M1;
      [|destruct (str_eqb type1 (lit "symptom")) eqn:S1]];
    (destruct (str_eqb type2 (lit "appointment")) eqn:A2;
     [|destruct (str_eqb type2 (lit "medication")) eqn:M2;
       [|destruct (str_eqb type2 (lit "symptom")) eqn:S2]]);
    intros Hinfo Heq; try discriminate Heq; try (now contradiction Hinfo);
    repeat match goal with
           | H : str_eqb _ _ = true |- _ => apply str_eqb_eq in H
           end; congruence.
Qed.

Lemma icon_identifies_type_witness : lit "symptom" = lit "symptom".
Proof.
  apply (icon_identifies_type (lit "symptom") (lit "symptom"));
    [discriminate | reflexivity].
Defined.

(** ** The screen as a state machine *)

Lemma run_app (a b : list setter) (s : screen) :
  run (a ++ b) s = run b (run a s).
Proof. apply fold_left_app. Qed.

Lemma seen_cons (s0 : screen) (ev : event) (events : list event) (n : nat) :
  seen s0 (ev :: events) n
  = seen (run (firstn n (script ev)) s0) events (n - length (script ev)).
Proof. unfold seen; simpl; now rewrite firstn_app, run_app. Qed.

(** What every prefix of every handler keeps holds in every state seen. *)
Lemma invariant_seen (J : screen -> Prop) :
  (forall ev n s, J s -> J (run (firstn n (script ev)) s)) ->
  forall events n s0, J s0 -> J (seen s0 events n).
Proof.
  intros Hstep events; induction events as [|ev events IH]; intros n s0 H0.
  - unfold seen; simpl; now rewrite firstn_nil.
  - rewrite seen_cons; apply IH, Hstep, H0.
Qed.

Ltac each_prefix ev n :=
  destruct ev; simpl script;
  destruct n as [|[|[|[|[|n]]]]]; simpl.

Lemma modal_needs_record (ev : event) (n : nat) (s : screen) :
  (showRecordModal s = true -> selectedRecord s <> None) ->
  showRecordModal (run (firstn n (script ev)) s) = true ->
  selectedRecord (run (firstn n (script ev)) s) <> None.
Proof. intros J; each_prefix ev n; auto; discriminate. Qed.

Lemma error_never_empty (ev : event) (n : nat) (s : screen) :
  error s <> Some [] -> error (run (firstn n (script ev)) s) <> Some [].
Proof.
  intros J; each_prefix ev n; auto; try discriminate;
    destruct translated; discriminate.
Qed.

Lemma loading_stays_off (ev : event) (n : nat) (s : screen) :
  isLoading s = false -> isLoading (run (firstn n (script ev)) s) = false.
Proof. intros J; each_prefix ev n; auto. Qed.

Lemma load_completed_off (ev : event) (s : screen) :
  load_completed ev = true -> isLoading (run (script ev) s) = false.
Proof. destruct ev; try discriminate; reflexivity. Qed.

(** ** Sorting the records *)

Lemma insert_sorted_perm {A : Type} (compare : A -> A -> Z) (x : A) (l : list A) :
  Permutation (x :: l) (insert_sorted compare x l).
Proof.
  induction l as [|y l IH]; simpl; [reflexivity|].
  destruct (compare x y <=? 0)%Z; [reflexivity|].
  rewrite perm_swap; now constructor.
Qed.

Lemma sort_perm {A : Type} (compare : A -> A -> Z) (l : list A) :
  Permutation l (sort compare l).
Proof.
  induction l as [|x l IH]; simpl; [constructor|].
  rewrite <- insert_sorted_perm; now constructor.
Qed.

Lemma newest_first_cons (a : HealthRecord) (l : list HealthRecord) :
  newest_first (a :: l) = true <->
  (forall b, In b l -> (date b <= date a)%Z) /\ newest_first l = true.
Proof.
  revert a; induction l as [|b l IH]; intros a.
  - simpl; split; [intros _; split; [contradiction | reflexivity] | reflexivity].
  - change (newest_first (a :: b :: l))
      with ((date b <=? date a)%Z && newest_first (b :: l)).
    rewrite andb_true_iff, Z.leb_le; split.
    + intros [Hab Hl]; split; [|exact Hl].
      intros c [<- | Hc]; [exact Hab|].
      apply IH in Hl; destruct Hl as [Hl _].
      specialize (Hl c Hc); lia.
    + intros [Hall Hl]; split; [apply Hall; now left | exact Hl].
Qed.

Lemma insert_newest_first (x : HealthRecord) (l : list HealthRecord) :
  newest_first l = true -> newest_first (insert_sorted by_date x l) = true.
Proof.
  induction l as [|y l IH]; intros Hl; [reflexivity|].
  simpl insert_sorted; unfold by_date at 1.
  destruct (date y - date x <=? 0)%Z eqn:E.
  - apply Z.leb_le in E.
    change (((date y <=? date x)%Z && newest_first (y :: l)) = true).
    rewrite Hl, andb_true_r; apply Z.leb_le; lia.
  - apply Z.leb_gt in E.
    apply newest_first_cons in Hl; destruct Hl as [Hall Hl].
    apply newest_first_cons; split; [|auto].
    intros b Hb.
    apply (Permutation_in _ (Permutation_sym (insert_sorted_perm by_date x l)))
      in Hb.
    destruct Hb as [<- | Hb]; [lia | auto].
Qed.

Lemma sort_newest_first (l : list HealthRecord) :
  newest_first (sort by_date l) = true.
Proof.
  induction l as [|x l IH]; [reflexivity|].
  simpl; now apply insert_newest_first.
Qed.

(** X14: in every state the screen can be seen in, after any events and any
    number of their setter calls, the record modal is asked to show only when
    a record is selected: its [visible] prop equals [showRecordModal]. *)
Theorem modal_shows_selected_record (now : Z) (events : list event) (n : nat) :
  modal_visible (seen (initial now) events n)
  = showRecordModal (seen (initial now) events n).
Proof.
  pose proof (invariant_seen
                (fun s => showRecordModal s = true -> selectedRecord s <> None)
                modal_needs_record events n (initial now)) as H.
  simpl in H; unfold modal_visible.
  destruct (showRecordModal (seen (initial now) events n)) eqn:Es;
    [|reflexivity].
  destruct (selectedRecord (seen (initial now) events n)) eqn:Er;
    [reflexivity|].
  exfalso; apply H; [discriminate | reflexivity | reflexivity].
Qed.

(** X15: an error that is recorded is shown: in every state seen, when the
    error cell holds a message the screen renders the error view with that
    message, unless the loading view is up. *)
Theorem recorded_error_shown (now : Z) (events : list event) (n : nat)
        (message : jsstring) :
  error (seen (initial now) events n) = Some message ->
  render (seen (initial now) events n) = LoadingView
  \/ render (seen (initial now) events n) = ErrorView message.
Proof.
  pose proof (invariant_seen (fun s => error s <> Some [])
                error_never_empty events n (initial now)) as H.
  intros E; unfold render.
  destruct (isLoading _ && negb (refreshing _)); [now left | right].
  rewrite E; destruct message; [|reflexivity].
  exfalso; apply H; [discriminate | exact E].
Qed.

Lemma recorded_error_shown_witness :
  render (seen (initial 0) [LoadBegan; LoadRejected []; ModalClosed] 5)
  = LoadingView
  \/ render (seen (initial 0) [LoadBegan; LoadRejected []; ModalClosed] 5)
     = ErrorView failure_message.
Proof.
  apply (recorded_error_shown 0 [LoadBegan; LoadRejected []; ModalClosed] 5).
  reflexivity.
Defined.

(** X16: the loading view never comes back: once a load has resolved or been
    rejected, from any state, no later event or setter call makes the screen
    render the loading view again, a refresh included. *)
Theorem loading_view_never_returns
        (s : screen) (ev : event) (events : list event) (n : nat) :
  load_completed ev = true ->
  render (seen (run (script ev) s) events n) <> LoadingView.
Proof.
  intros Hev.
  pose proof (invariant_seen (fun s' => isLoading s' = false)
                loading_stays_off events n (run (script ev) s)
                (load_completed_off ev s Hev)) as H.
  unfold render; rewrite H; simpl.
  destruct (error _) as [[|c m]|]; discriminate.
Qed.

Lemma loading_view_never_returns_witness :
  render (seen (run (script (LoadRejected [])) (initial 0))
            [Refreshed; LoadBegan] 2)
  <> LoadingView.
Proof. apply loading_view_never_returns; reflexivity. Defined.

(** X17: after a load resolves, from any state, the screen renders the list,
    which holds exactly the fetched records, the newest first. *)
Theorem resolved_load_lists_records
        (s : screen) (fetched : list HealthRecord) (now : Z) :
  render (run (loadHealthRecords_resolve fetched now) s)
  = ListView (sort by_date fetched) (modal_visible s)
  /\ newest_first (sort by_date fetched) = true
  /\ Permutation fetched (sort by_date fetched).
Proof.
  repeat split; [apply sort_newest_first | apply sort_perm].
Qed.

(** X18: after a load is rejected, from any state, the screen renders the
    error view with a message that is never empty: the translation when it is
    not empty, the built-in English sentence otherwise. *)
Theorem rejected_load_shows_message (s : screen) (translated : jsstring) :
  render (run (loadHealthRecords_reject translated) s)
  = ErrorView (or_else translated failure_message)
  /\ or_else translated failure_message <> [].
Proof. destruct translated; split; try reflexivity; discriminate. Qed.

(** X19: the list stays newest first: when it is, every prefix of every
    handler leaves it so, provided a record is added with a date no earlier
    than those listed. *)
Theorem list_stays_newest_first (ev : event) (n : nat) (s : screen) :
  newest_first (records (healthData s)) = true ->
  timely ev s ->
  newest_first (records (healthData (run (firstn n (script ev)) s))) = true.
Proof.
  intros Hs Ht; each_prefix ev n; auto using sort_newest_first.
  all: simpl in Ht;
    destruct (records (healthData s)) as [|b l] eqn:E; [reflexivity|];
    apply andb_true_iff; split; [apply Z.leb_le, Ht; now left | exact Hs].
Qed.

Lemma list_stays_newest_first_witness :
  newest_first
    (records
       (healthData
          (run (firstn 1 (script (RecordAdded (lit "symptom") 30 30 31)))
             (run (script (LoadResolved
                             [newRecord (lit "a") 1 10; newRecord (lit "b") 2 20]
                             25))
                (initial 0)))))
  = true.
Proof.
  apply list_stays_newest_first; [reflexivity|].
  simpl; intros r [<- | [<- | []]]; simpl; lia.
Defined.

(** ** Record ids and the palette the screen reads *)

Lemma String_of_integer_inj (z1 z2 : Z) :
  String_of_integer z1 = String_of_integer z2 -> z1 = z2.
Proof.
  unfold String_of_integer.
  assert (Hdigit : forall n m, 45 :: decimal n <> decimal m).
  { intros n m H. pose proof (decimal_digits m) as Hm.
    rewrite <- H in Hm; discriminate. }
  destruct (Z.ltb_spec z1 0) as [L1|L1], (Z.ltb_spec z2 0) as [L2|L2]; simpl;
    intros Heq.
  - injection Heq as Heq; apply decimal_inj in Heq.
    apply (f_equal Z.of_N) in Heq; rewrite !N2Z.inj_abs_N in Heq; lia.
  - now apply Hdigit in Heq.
  - symmetry in Heq; now apply Hdigit in Heq.
  - apply decimal_inj in Heq.
    apply (f_equal Z.of_N) in Heq; rewrite !N2Z.inj_abs_N in Heq; lia.
Qed.

(** X20: two records made by the add form carry the same id only when
    [Date.now()] gave the same millisecond for both: different clock readings
    give different list keys. *)
Theorem added_ids_follow_clock
        (type1 type2 : jsstring) (id_ms1 id_ms2 date_ms1 date_ms2 : Z) :
  id (newRecord type1 id_ms1 date_ms1) = id (newRecord type2 id_ms2 date_ms2) ->
  id_ms1 = id_ms2.
Proof. apply String_of_integer_inj. Qed.

Lemma added_ids_follow_clock_witness : 1762020000000%Z = 1762020000000%Z.
Proof.
  apply (added_ids_follow_clock (lit "symptom") (lit "medication")
           1762020000000 1762020000000 1 2).
  reflexivity.
Defined.

(** X21: a [colors] palette on the theme hook wins: two hooks with the same
    [colors] value, not [null] or [undefined], and the same mode give the same
    six colours, whatever else they hold, a [theme] palette included. *)
Theorem colors_palette_wins (hook1 hook2 : value) (palette : value) :
  optional_member hook1 (lit "colors") = palette ->
  optional_member hook2 (lit "colors") = palette ->
  nullish palette = false ->
  isDark hook1 = isDark hook2 ->
  theme_colors hook1 = theme_colors hook2.
Proof.
  intros H1 H2 Hp Hd; unfold theme_colors, colorsObj, coalesce.
  now rewrite H1, H2, Hp, Hd.
Qed.

Lemma colors_palette_wins_witness :
  theme_colors
    (VObject [(lit "theme", VObject [(lit "text", VString (lit "#111"))]);
              (lit "colors", VObject [(lit "text", VString (lit "#eee"))])])
  = theme_colors
      (VObject [(lit "colors", VObject [(lit "text", VString (lit "#eee"))])]).
Proof.
  apply (colors_palette_wins _ _
           (VObject [(lit "text", VString (lit "#eee"))])); reflexivity.
Defined.

(** ** Priority keys and arrays, on what the values hold *)

Lemma barren_nothing (v : value) :
  barren v = true -> extractColor v None = None.
Proof.
  intros Hb; destruct (extractColor v None) as [c|] eqn:E; [|reflexivity].
  destruct (extracted_literal v c E) as [H1 [_ [_ H4]]].
  unfold barren in Hb; rewrite forallb_forall in Hb.
  specialize (Hb c H4); destruct c; [contradiction | discriminate].
Qed.

Lemma fruitful_found (v : value) :
  fruitful v = true ->
  exists c, extractColor v None = Some c /\ c <> [] /\ In c (literals v).
Proof.
  unfold fruitful; intros H; apply andb_true_iff in H; destruct H as [Hu Hb].
  destruct (extractColor v None) as [c|] eqn:E.
  - destruct (extracted_literal v c E) as [H1 [_ [_ H4]]]; eauto.
  - pose proof (nothing_found v Hu E) as Hall.
    apply negb_true_iff in Hb; unfold barren in Hb.
    assert (Ht : forallb is_empty (literals v) = true).
    { apply forallb_forall; intros l Hl.
      rewrite Forall_forall in Hall; now rewrite (Hall l Hl). }
    congruence.
Qed.

(** On a value with each property name once, holding nothing usable is
    resolving to nothing, and holding something usable is resolving to a
    non-empty string. *)
Lemma barren_iff_nothing (v : value) :
  unique_keys v = true ->
  (barren v = true <-> extractColor v None = None).
Proof.
  intros Hu; split; [apply barren_nothing|].
  intros E; pose proof (nothing_found v Hu E) as Hall.
  apply forallb_forall; intros l Hl.
  rewrite Forall_forall in Hall; now rewrite (Hall l Hl).
Qed.

Lemma fruitful_iff_something (v : value) :
  unique_keys v = true ->
  (fruitful v = true <-> truthy (extractColor v None) = true).
Proof.
  intros Hu; split.
  - intros H; destruct (fruitful_found v H) as [c [-> [Hne _]]].
    destruct c; [contradiction | reflexivity].
  - intros H; unfold fruitful; rewrite Hu; simpl.
    apply negb_true_iff, not_true_is_false; intros Hb.
    now rewrite (barren_nothing v Hb) in H.
Qed.

Lemma first_truthy_skip (rs1 rs2 : list result) (r : result) :
  (forall r', In r' rs1 -> truthy r' = false) -> truthy r = true ->
  first_truthy (rs1 ++ r :: rs2) = r.
Proof.
  intros H Hr; induction rs1 as [|r' rs1 IH]; simpl.
  - now rewrite Hr.
  - rewrite (H r') by now left. apply IH; intros; apply H; now right.
Qed.

Lemma barren_candidate (props : list (jsstring * value)) (k : jsstring) :
  (forall v, own_value k props = Some v -> barren v = true) ->
  truthy (key_candidate props k) = false.
Proof.
  intros H; unfold key_candidate.
  destruct (own_value k props) as [v|]; [|reflexivity].
  now rewrite (barren_nothing v (H v eq_refl)).
Qed.

(** C3: in an object the priority keys are looked up with the fallback
    suppressed: when every earlier priority key that is present holds nothing
    usable ([null], [undefined], a blank string, or anything without a number
    or a non-blank string in it), the resolver does not return the fallback
    there but goes on, and returns what the first priority key with something
    usable in it resolves to, a non-empty literal of that value, whatever the
    fallback. *)
Theorem priority_key_fallback_suppressed
        (props : list (jsstring * value)) (pre post : list jsstring)
        (k : jsstring) (v : value) (fallback : result) :
  priorityKeys = pre ++ k :: post ->
  (forall k' v', In k' pre -> own_value k' props = Some v' ->
                 barren v' = true) ->
  own_value k props = Some v ->
  fruitful v = true ->
  exists c,
    extractColor (VObject props) fallback = Some c
    /\ c <> [] /\ In c (literals v) /\ extractColor v None = Some c.
Proof.
  intros Hsplit Hpre Hown Hv.
  destruct (fruitful_found v Hv) as [c [Hc [Hne Hin]]].
  exists c; repeat split; auto.
  rewrite extractColor_object.
  rewrite (priority_pass_first props pre post k Hsplit).
  - unfold key_candidate; now rewrite Hown, Hc.
  - intros k' Hk'; apply barren_candidate; intros v' Hv'; eauto.
  - unfold key_candidate; rewrite Hown, Hc.
    destruct c; [contradiction | reflexivity].
Qed.

Lemma priority_key_fallback_suppressed_witness :
  exists c,
    extractColor (VObject empty_then_main_props) (Some default_fallback) = Some c
    /\ c <> [] /\ In c (literals (VString (lit "#fff")))
    /\ extractColor (VString (lit "#fff")) None = Some c.
Proof.
  apply (priority_key_fallback_suppressed empty_then_main_props
           [lit "hex"; lit "color"; lit "value"]
           [lit "DEFAULT"; lit "default"; lit "light"; lit "dark"; lit "primary"]
           (lit "main") (VString (lit "#fff"))).
  - reflexivity.
  - intros k' v' [<- | [<- | [<- | []]]]; vm_compute; intros [= <-]; reflexivity.
  - reflexivity.
  - reflexivity.
Defined.

(** C5: in an object, each property name once at every depth, where priority
    keys are present whose values hold something usable, the resolver returns
    what the earliest of them in the priority order resolves to, a non-empty
    literal of its value; [{ hex: "#000", color: "#fff" }] resolves to
    ["#000"]. *)
Theorem earliest_priority_key_wins
        (props : list (jsstring * value)) (fallback : result)
        (k : jsstring) (later : list jsstring) (v : value) :
  unique_keys (VObject props) = true ->
  fruitful_priority_keys props = k :: later ->
  own_value k props = Some v ->
  (exists c,
      extractColor (VObject props) fallback = Some c
      /\ c <> [] /\ In c (literals v) /\ extractColor v None = Some c)
  /\ extractColor (VObject hex_and_color_props) fallback = Some (lit "#000").
Proof.
  intros Hu Hf Hown; split; [|reflexivity].
  simpl in Hu; apply andb_true_iff in Hu; destruct Hu as [_ Hu].
  rewrite forallb_forall in Hu.
  apply filter_head in Hf; destruct Hf as [pre [post [Hsplit [Hpre Hk]]]].
  rewrite Hown in Hk.
  destruct (fruitful_found v Hk) as [c [Hc [Hne Hin]]].
  exists c; repeat split; auto.
  rewrite extractColor_object.
  rewrite (priority_pass_first props pre post k Hsplit).
  - unfold key_candidate; now rewrite Hown, Hc.
  - intros k' Hk'; apply barren_candidate; intros v' Hv'.
    specialize (Hpre k' Hk'); rewrite Hv' in Hpre.
    specialize (Hu (k', v') (own_value_In k' props v' Hv')); simpl in Hu.
    unfold fruitful in Hpre; rewrite Hu in Hpre; simpl in Hpre.
    now apply negb_false_iff in Hpre.
  - unfold key_candidate; rewrite Hown, Hc.
    destruct c; [contradiction | reflexivity].
Qed.

Lemma earliest_priority_key_wins_witness :
  (exists c,
      extractColor
        (VObject [(lit "color", VString (lit "#fff")); (lit "dark", VNull);
                  (lit "hex", VString (lit " #abc "))])
        (Some default_fallback) = Some c
      /\ c <> [] /\ In c (literals (VString (lit " #abc ")))
      /\ extractColor (VString (lit " #abc ")) None = Some c)
  /\ extractColor (VObject hex_and_color_props) (Some default_fallback)
     = Some (lit "#000").
Proof.
  apply (earliest_priority_key_wins
           [(lit "color", VString (lit "#fff")); (lit "dark", VNull);
            (lit "hex", VString (lit " #abc "))]
           (Some default_fallback) (lit "hex") [lit "color"]);
    reflexivity.
Defined.

(** C7, as stated, fails: an array is searched as an object first, and a
    named property under a priority key is returned before any element. *)
Lemma array_named_property_first :
  extractColor abc_def_with_hex (Some default_fallback) = Some (lit "#f00")
  /\ extractColor (VString (lit "#abc")) None = Some (lit "#abc")
  /\ extractColor abc_def_with_hex (Some default_fallback)
     <> extractColor (VString (lit "#abc")) None.
Proof. repeat split; try reflexivity; vm_compute; discriminate. Qed.

(** C7, amended: on an array none of whose named properties under a priority
    key holds something usable, the elements are resolved in order and the
    first one that holds something usable gives the result, a non-empty
    literal of that element; [["#abc", "#def"]] resolves to ["#abc"]. *)
Theorem array_first_element_wins
        (before after : list value) (v : value)
        (props : list (jsstring * value)) (fallback : result) :
  (forall k v', In k priorityKeys -> own_value k props = Some v' ->
                barren v' = true) ->
  forallb barren before = true ->
  fruitful v = true ->
  (exists c,
      extractColor (VArray (before ++ v :: after) props) fallback = Some c
      /\ c <> [] /\ In c (literals v) /\ extractColor v None = Some c)
  /\ extractColor abc_def fallback = Some (lit "#abc").
Proof.
  intros Hprops Hbefore Hv; split; [|reflexivity].
  destruct (fruitful_found v Hv) as [c [Hc [Hne Hin]]].
  exists c; repeat split; auto.
  rewrite extractColor_array.
  assert (Hp : priority_pass props = None).
  { apply scan_keys_all_falsy; intros k r Hk Hr.
    rewrite key_candidate_own in Hr.
    destruct (own_value k props) as [v'|] eqn:Ev; [|discriminate].
    simpl in Hr; injection Hr as <-.
    now rewrite (barren_nothing v' (Hprops k v' Hk Ev)). }
  rewrite Hp, map_app; simpl map.
  rewrite first_truthy_skip, Hc; [reflexivity | | ].
  - intros r Hr; apply in_map_iff in Hr; destruct Hr as [v' [<- Hv']].
    rewrite forallb_forall in Hbefore.
    now rewrite (barren_nothing v' (Hbefore v' Hv')).
  - rewrite Hc; destruct c; [contradiction | reflexivity].
Qed.

Lemma array_first_element_wins_witness :
  (exists c,
      extractColor
        (VArray ([VNull; VString (lit " ")] ++ VString (lit "#0af") :: [VString (lit "#999")])
           [(lit "hex", VNull); (lit "note", VString (lit "#123"))])
        (Some default_fallback) = Some c
      /\ c <> [] /\ In c (literals (VString (lit "#0af")))
      /\ extractColor (VString (lit "#0af")) None = Some c)
  /\ extractColor abc_def (Some default_fallback) = Some (lit "#abc").
Proof.
  apply (array_first_element_wins [VNull; VString (lit " ")] [VString (lit "#999")]
           (VString (lit "#0af"))
           [(lit "hex", VNull); (lit "note", VString (lit "#123"))]).
  - intros k v' Hk; unfold priorityKeys in Hk; simpl in Hk.
    repeat (destruct Hk as [<- | Hk];
            [vm_compute; intros [= <-]; reflexivity|]).
    contradiction.
  - reflexivity.
  - reflexivity.
Defined.

(** ** The call stack *)

Lemma call_depth_pos (v : value) : (1 <= call_depth v)%nat.
Proof. destruct v; simpl; lia. Qed.

Lemma list_max_bound {A : Type} (f : A -> nat) (l : list A) (n : nat) (x : A) :
  (list_max (map f l) <= n)%nat -> In x l -> (f x <= n)%nat.
Proof.
  intros H Hx; apply list_max_le in H; rewrite Forall_forall in H.
  apply H, in_map, Hx.
Qed.

Lemma scan_keys_within_agrees
      (lookup_within : jsstring -> option (outcome result))
      (lookup : jsstring -> option result) (keys : list jsstring) :
  (forall k, In k keys -> lookup_within k = option_map Returned (lookup k)) ->
  scan_keys_within lookup_within keys = Returned (scan_keys lookup keys).
Proof.
  induction keys as [|k keys IH]; intros H; simpl; [reflexivity|].
  rewrite (H k) by now left.
  destruct (lookup k) as [c|]; simpl.
  - destruct (truthy c); [reflexivity|].
    apply IH; intros; apply H; now right.
  - apply IH; intros; apply H; now right.
Qed.

Lemma scan_elems_within_agrees
      (recurse_within : value -> outcome result) (recurse : value -> result)
      (elems : list value) :
  (forall v, In v elems -> recurse_within v = Returned (recurse v)) ->
  scan_elems_within recurse_within elems = Returned (scan_elems recurse elems).
Proof.
  induction elems as [|v elems IH]; intros H; simpl; [reflexivity|].
  rewrite (H v) by now left.
  destruct (truthy (recurse v)); [reflexivity|].
  apply IH; intros; apply H; now right.
Qed.

(** With room for its depth on the stack, a value resolves to what the
    function computes. *)
Lemma within_agrees (budget : nat) :
  forall (v : value) (fallback : result),
    (call_depth v <= budget)%nat ->
    extractColor_within budget v fallback = Returned (extractColor v fallback).
Proof.
  induction budget as [|budget IH]; intros v fallback Hd.
  - pose proof (call_depth_pos v); lia.
  - destruct v as [| | | | s | | | | props | elems props];
      try reflexivity.
    + cbn [extractColor_within extractColor].
      destruct (isHex (trim s) || isRgb (trim s) || isColorName (trim s)
                || (0 <? length (trim s))%nat); reflexivity.
    + cbn [call_depth] in Hd; apply le_S_n in Hd.
      assert (Hlookup : forall k,
        option_map (fun v => extractColor_within budget v None)
          (own_value k props)
        = option_map Returned
            (own_candidate (fun v => extractColor v None) k props)).
      { intros k; rewrite own_candidate_value.
        destruct (own_value k props) as [v|] eqn:Ev; [|reflexivity].
        simpl; f_equal; apply IH.
        apply own_value_In in Ev.
        apply (list_max_bound (fun p => call_depth (snd p)) props budget (k, v));
          assumption. }
      cbn [extractColor_within extractColor].
      rewrite !(scan_keys_within_agrees _
                  (fun k => own_candidate (fun v => extractColor v None) k props))
        by (intros; apply Hlookup).
      destruct (scan_keys _ priorityKeys); [reflexivity|].
      destruct (scan_keys _ (keys_of props)); reflexivity.
    + cbn [call_depth] in Hd; apply le_S_n in Hd.
      assert (He : forall v, In v elems ->
        extractColor_within budget v None = Returned (extractColor v None)).
      { intros v Hv; apply IH.
        apply (list_max_bound call_depth elems budget v); [lia | exact Hv]. }
      assert (Hlookup : forall k,
        match elem_value k 0 elems with
        | Some v => Some (extractColor_within budget v None)
        | None => option_map (fun v => extractColor_within budget v None)
                    (own_value k props)
        end
        = option_map Returned
            (array_candidate (fun v => extractColor v None) elems props k)).
      { intros k; unfold array_candidate.
        rewrite elem_candidate_value, own_candidate_value.
        destruct (elem_value k 0 elems) as [v|] eqn:Ev.
        - simpl; f_equal; apply He, (elem_value_In k 0 elems v Ev).
        - destruct (own_value k props) as [v|] eqn:Ep; [|reflexivity].
          simpl; f_equal; apply IH.
          apply own_value_In in Ep.
          apply (list_max_bound (fun p => call_depth (snd p)) props budget (k, v));
            [lia | assumption]. }
      cbn [extractColor_within extractColor].
      rewrite !(scan_keys_within_agrees _
                  (array_candidate (fun v => extractColor v None) elems props))
        by (intros; apply Hlookup).
      rewrite (scan_elems_within_agrees _ (fun v => extractColor v None))
        by exact He.
      destruct (scan_keys _ priorityKeys); [reflexivity|].
      destruct (scan_keys _ (index_keys (length elems) ++ keys_of props));
        [reflexivity|].
      destruct (scan_elems _ elems); reflexivity.
Qed.

Lemma nested_depth (n : nat) : call_depth (nested n) = S n.
Proof.
  induction n as [|n IH]; [reflexivity|].
  cbn [nested call_depth map list_max fold_right]; rewrite IH; lia.
Qed.

(** One array too many and the stack is exhausted. *)
Lemma nested_overflows (n : nat) :
  forall fallback, extractColor_within n (nested n) fallback = Thrown RangeError.
Proof.
  induction n as [|n IH]; intros fallback; [reflexivity|].
  cbn [nested extractColor_within].
  change (scan_keys_within _ priorityKeys) with (@Returned result None).
  cbn [length index_keys seq map app keys_of scan_keys_within].
  change (elem_value (index_key 0) 0 [nested n]) with (Some (nested n)).
  cbv beta iota; now rewrite IH.
Qed.

(** C1, as stated, fails: whatever room the call stack has, some value of
    finite depth, a colour under that many one-element arrays, makes the
    resolver raise [RangeError]. *)
Lemma deep_value_raises :
  ~ (exists budget,
        forall (v : value) (fallback : jsstring),
        exists r : jsstring,
          extractColor_within budget v (Some fallback) = Returned (Some r)).
Proof.
  intros [budget H].
  destruct (H (nested budget) default_fallback) as [r Hr].
  rewrite nested_overflows in Hr; discriminate.
Qed.

(** C1, amended: on every value whose depth fits the call stack, and every
    fallback string, the resolver terminates and returns a string without
    raising, the string the function computes. *)
Theorem extractColor_returns_within_budget
        (budget : nat) (v : value) (fallback : jsstring) :
  (call_depth v <= budget)%nat ->
  exists r : jsstring,
    extractColor_within budget v (Some fallback) = Returned (Some r)
    /\ extractColor v (Some fallback) = Some r.
Proof.
  intros Hd; rewrite (within_agrees budget v (Some fallback) Hd).
  rewrite extractColor_fallback.
  destruct (extractColor v None) as [c|]; eauto.
Qed.

Lemma extractColor_returns_within_budget_witness :
  exists r : jsstring,
    extractColor_within 3 nested_primary (Some default_fallback)
    = Returned (Some r)
    /\ extractColor nested_primary (Some default_fallback) = Some r.
Proof.
  apply (extractColor_returns_within_budget 3 nested_primary default_fallback).
  vm_compute; lia.
Defined.

(** X10: whatever tree of plain data [useTheme()] returns, [null] and
    [undefined] included, as long as each of the six palette entries fits the
    call stack, the colour computation of the screen throws neither TypeError
    nor RangeError, and each of the six colours is a non-empty string without
    white space at its ends. *)
Theorem theme_colors_usable_within_budget (budget : nat) (themeHook : value) :
  (forall k x, In k palette_names ->
               member (colorsObj themeHook) k = Some x ->
               (call_depth x <= budget)%nat) ->
  exists p,
    theme_colors_within budget themeHook = Returned p
    /\ all_usable p = true
    /\ theme_colors themeHook = Some p.
Proof.
  intros H; unfold theme_colors_within, theme_colors, member_within.
  pose proof (colorsObj_not_nullish themeHook) as Hn.
  destruct (member_defined _ (lit "background") Hn) as [x1 E1].
  destruct (member_defined _ (lit "text") Hn) as [x2 E2].
  destruct (member_defined _ (lit "card") Hn) as [x3 E3].
  destruct (member_defined _ (lit "border") Hn) as [x4 E4].
  destruct (member_defined _ (lit "primary") Hn) as [x5 E5].
  destruct (member_defined _ (lit "textTertiary") Hn) as [x6 E6].
  rewrite E1, E2, E3, E4, E5, E6; cbn [and_then and_then_within].
  rewrite !within_agrees;
    [| match goal with
       | E : member _ ?k = Some ?x |- (call_depth ?x <= _)%nat =>
           apply (H k x); [unfold palette_names; simpl; auto 10 | exact E]
       end ..].
  cbn [and_then_within]; eexists; split; [reflexivity|]; split; [|reflexivity].
  unfold all_usable, default_colors;
    cbn [bgColor textColor cardColor borderColor primaryColor tertiaryText].
  rewrite !usable_extract; [reflexivity | ..];
    destruct (isDark themeHook); reflexivity.
Qed.

Lemma theme_colors_usable_within_budget_witness :
  exists p,
    theme_colors_within 3
      (VObject [(lit "isDark", VBool true);
                (lit "colors",
                 VObject [(lit "primary", nested_primary);
                          (lit "text", VArray [VNull; VString (lit " #eee ")] [])])])
    = Returned p
    /\ all_usable p = true
    /\ theme_colors
         (VObject [(lit "isDark", VBool true);
                   (lit "colors",
                    VObject [(lit "primary", nested_primary);
                             (lit "text", VArray [VNull; VString (lit " #eee ")] [])])])
       = Some p.
Proof.
  apply theme_colors_usable_within_budget.
  intros k x Hk; unfold palette_names in Hk; simpl in Hk.
  repeat (destruct Hk as [<- | Hk];
          [vm_compute; intros [= <-]; vm_compute; lia|]).
  contradiction.
Defined.

(** X22: the depth bound is sharp: for every room [budget] on the call stack,
    a colour string under [budget] one-element arrays, a value of depth
    [budget + 1], makes the resolver raise [RangeError] instead of returning,
    whatever the fallback. *)
Theorem deep_nesting_overflows (budget : nat) (fallback : result) :
  call_depth (nested budget) = S budget
  /\ extractColor_within budget (nested budget) fallback = Thrown RangeError
  /\ extractColor (nested budget) fallback = Some (lit "#fff").
Proof.
  repeat split; [apply nested_depth | apply nested_overflows |].
  revert fallback; induction budget as [|budget IH]; intros fallback;
    [reflexivity|].
  cbn [nested]; rewrite extractColor_plain_array; simpl.
  now rewrite (IH None).
Qed.
